(** * JitsiLocalTrack: mute queue, effects, device watcher, constraints

    A shallow embedding of [modules/RTC/JitsiLocalTrack.ts].  A track is a
    record of the fields the class declares; media streams and media stream
    tracks are browser objects held by reference, so they live in a store
    ([World]) indexed by reference.  Every call that leaves the class (the
    conference, RTCUtils, the effect object, the event emitter) is appended
    to a trace, and what such a call answers is given by an environment
    ([Env]) that may look at the whole trace so far.

    Conventions.
    - A method that returns a promise is a computation [M A]: it ends in
      [Fulfilled] or [Rejected] and keeps every assignment done before a
      rejection, as JavaScript does.
    - Collaborator methods that return a promise may reject; collaborator
      methods that return a value synchronously answer as their declared
      TypeScript types say.  The one exception is the module [MayThrow],
      which gives the sequence of [setEffect] with effect methods that may
      throw.
    - Calls to the logger are left out: they change nothing.
    - The trace is kept newest event first. *)

From Stdlib Require Import List String Ascii Bool Arith ZArith Lia.
Import ListNotations.
Open Scope string_scope.

(** ** Enumerations of service/RTC *)

Module MediaType.
Inductive t := AUDIO | VIDEO | DESKTOP.

Definition eqb (a b : t) : bool :=
  match a, b with
  | AUDIO, AUDIO | VIDEO, VIDEO | DESKTOP, DESKTOP => true
  | _, _ => false
  end.

Definition to_string (a : t) : string :=
  match a with AUDIO => "audio" | VIDEO => "video" | DESKTOP => "desktop" end.
End MediaType.

Module VideoType.
Inductive t := CAMERA | DESKTOP.

Definition eqb (a b : t) : bool :=
  match a, b with
  | CAMERA, CAMERA | DESKTOP, DESKTOP => true
  | _, _ => false
  end.
End VideoType.

Module CameraFacingMode.
Inductive t := ENVIRONMENT | USER.
End CameraFacingMode.

(** [a === b] on two possibly undefined video types. *)
Definition videoType_eqb (a b : option VideoType.t) : bool :=
  match a, b with
  | Some x, Some y => VideoType.eqb x y
  | None, None => true
  | _, _ => false
  end.

(** ** References to browser and collaborator objects *)

Definition StreamRef := nat.
Definition TrackRef := nat.
Definition EffectRef := nat.
Definition ConferenceRef := nat.
Definition ContainerRef := nat.

(** ** Browser dictionaries *)

Module MediaTrackSettings.
Record t := mk {
  deviceId : option string;
  facingMode : option CameraFacingMode.t;
  autoGainControl : option bool;
  channelCount : option nat;
  echoCancellation : option bool;
  noiseSuppression : option bool
}.
End MediaTrackSettings.

(** A key of a JavaScript object that a caller builds: the object does not
    have the key, or it has it, with a value that may be [undefined]
    ([present None]). *)
Inductive Key (A : Type) : Type :=
| absent
| present (v : option A).

Arguments absent {A}.
Arguments present {A} v.

(** [object.key]: [undefined] when the key is absent and when it holds
    [undefined]. *)
Definition read {A} (k : Key A) : option A :=
  match k with
  | absent => None
  | present v => v
  end.

(** A member of a dictionary the browser hands out, as a key of an
    object: present with its value, or absent. *)
Definition own {A} (member : option A) : Key A :=
  match member with
  | Some v => present (Some v)
  | None => absent
  end.

(** The object passed to [applyConstraints]: the four keys the interface
    declares, each optional, and [deviceId], which the interface does not
    declare but the object of a caller may carry; the spread copies it like
    any other own key. *)
Module IAudioConstraints.
Record t := mk {
  autoGainControl : Key bool;
  channelCount : Key nat;
  echoCancellation : Key bool;
  noiseSuppression : Key bool;
  deviceId : Key string
}.
End IAudioConstraints.

(** The objects [applyConstraints] passes as [constraints.audio]: the keys
    of the settings and of the constraints. *)
Module MediaTrackConstraints.
Record t := mk {
  deviceId : Key string;
  facingMode : Key CameraFacingMode.t;
  autoGainControl : Key bool;
  channelCount : Key nat;
  echoCancellation : Key bool;
  noiseSuppression : Key bool
}.

(** The settings object itself, passed as constraints. *)
Definition ofSettings (i : MediaTrackSettings.t) : t :=
  mk (own (MediaTrackSettings.deviceId i))
     (own (MediaTrackSettings.facingMode i))
     (own (MediaTrackSettings.autoGainControl i))
     (own (MediaTrackSettings.channelCount i))
     (own (MediaTrackSettings.echoCancellation i))
     (own (MediaTrackSettings.noiseSuppression i)).
End MediaTrackConstraints.

Module ITrackConstraints.
Record t := mk { height : option nat; width : option nat }.
End ITrackConstraints.

(** One key of [{ ...a, ...b }]: the later object wins where it has the
    key, whatever the key holds - also [undefined]. *)
Definition spread_key {A} (a b : Key A) : Key A :=
  match b with
  | present _ => b
  | absent => a
  end.

(** [{ ...initialSettings, ...constraints }] *)
Definition spread (i : MediaTrackSettings.t) (c : IAudioConstraints.t)
  : MediaTrackConstraints.t :=
  MediaTrackConstraints.mk
    (spread_key (own (MediaTrackSettings.deviceId i))
       (IAudioConstraints.deviceId c))
    (own (MediaTrackSettings.facingMode i))
    (spread_key (own (MediaTrackSettings.autoGainControl i))
       (IAudioConstraints.autoGainControl c))
    (spread_key (own (MediaTrackSettings.channelCount i))
       (IAudioConstraints.channelCount c))
    (spread_key (own (MediaTrackSettings.echoCancellation i))
       (IAudioConstraints.echoCancellation c))
    (spread_key (own (MediaTrackSettings.noiseSuppression i))
       (IAudioConstraints.noiseSuppression c)).

Module ReadyState.
Inductive t := live | ended.
End ReadyState.

Module MediaStreamTrack.
Record t := mk {
  kind : MediaType.t;
  label : string;
  enabled : bool;
  readyState : option ReadyState.t;
  getSettings : option MediaTrackSettings.t
}.

Definition set_enabled (b : bool) (x : t) : t :=
  mk (kind x) (label x) b (readyState x) (getSettings x).
End MediaStreamTrack.

Module MediaStream.
Record t := mk { active : bool; getTracks : list TrackRef }.
End MediaStream.

Module MediaDeviceInfo.
Record t := mk { deviceId : string; kind : string; label : string }.
End MediaDeviceInfo.

(** ** What RTCUtils.obtainAudioAndVideoPermissions takes and gives *)

Module GumConstraints.
Record t := mk {
  video : option ITrackConstraints.t;
  audio : option MediaTrackConstraints.t
}.
End GumConstraints.

Module GumOptions.
Record t := mk {
  devices : list MediaType.t;
  cameraDeviceId : option string;
  micDeviceId : option string;
  effects : list EffectRef;
  facingMode : option CameraFacingMode.t;
  constraints : GumConstraints.t
}.
End GumOptions.

Module IStreamInfo.
Record t := mk {
  stream : StreamRef;
  track : TrackRef;
  videoType : option VideoType.t
}.
End IStreamInfo.

(** ** Errors and outcomes *)

(** The names of JitsiTrackErrors this class throws. *)
Inductive JitsiTrackErrors :=
| TRACK_IS_DISPOSED
| TRACK_NO_STREAM_FOUND
| CONSTRAINT_FAILED
| GENERAL.

Inductive JsError :=
| JitsiTrackError (name : JitsiTrackErrors)   (* new JitsiTrackError(name) *)
| Error (message : string)                    (* new Error('...') *)
| ErrorOf (cause : JsError)                   (* new Error(error) *)
| TypeError                                   (* a property read on null or undefined *)
| Reason (code : nat).                        (* what a collaborator rejected with *)

Inductive Outcome (A : Type) :=
| Fulfilled (a : A)
| Rejected (e : JsError).
Arguments Fulfilled {A} a.
Arguments Rejected {A} e.

(** ** The trace of calls that leave the class *)

Inductive Event :=
| EffectSetMuted (e : EffectRef) (muted : bool)
| StartEffect (e : EffectRef) (s : option StreamRef)
| StopEffect (e : EffectRef)
| RemoveLocalTrackFromPc (c : ConferenceRef)
| AddLocalTrackToPc (c : ConferenceRef)
| SetTrackMuteStatus (c : ConferenceRef) (mute : bool)
| SendPresence (c : ConferenceRef)
| SendBridgeVideoTypeMessage (c : ConferenceRef)
| ObtainAudioAndVideoPermissions (o : GumOptions.t)
| StopMediaStream (s : option StreamRef)
| AttachMediaStream (cont : ContainerRef) (s : option StreamRef)
| UnregisterHandlers
| Emit_TRACK_MUTE_CHANGED.

(** ** The promise kept in [_prevSetMuted]

    The field starts as [Promise.resolve()] and is only ever replaced by
    [prev.then(setMuted, setMuted)] with [setMuted = this._setMuted.bind(this,
    muted)], so a handler is known by the argument it was bound to. *)

Inductive Promise :=
| Settled (o : Outcome unit)
| Then (prev : Promise) (onFulfilled onRejected : bool).

(** ** The track *)

Record JitsiLocalTrack := mkTrack {
  (* JitsiTrack *)
  type : MediaType.t;
  videoType : option VideoType.t;
  stream : option StreamRef;
  track : option TrackRef;
  containers : list ContainerRef;
  conference : option ConferenceRef;
  disposed : bool;
  (* JitsiLocalTrack *)
  rtcId : nat;
  deviceId : string;
  _setEffectInProgress : bool;
  _constraints : ITrackConstraints.t;
  _prevSetMuted : Promise;
  _facingMode : option CameraFacingMode.t;
  _trackEnded : bool;
  _realDeviceId : option string;
  _streamEffect : option EffectRef;
  _originalStream : option StreamRef;
  _stopStreamInProgress : bool
}.

Definition set_videoType (v : option VideoType.t) (t : JitsiLocalTrack) :=
  mkTrack (type t) v (stream t) (track t) (containers t) (conference t)
    (disposed t) (rtcId t) (deviceId t) (_setEffectInProgress t)
    (_constraints t) (_prevSetMuted t) (_facingMode t) (_trackEnded t)
    (_realDeviceId t) (_streamEffect t) (_originalStream t)
    (_stopStreamInProgress t).

Definition set_stream (v : option StreamRef) (t : JitsiLocalTrack) :=
  mkTrack (type t) (videoType t) v (track t) (containers t) (conference t)
    (disposed t) (rtcId t) (deviceId t) (_setEffectInProgress t)
    (_constraints t) (_prevSetMuted t) (_facingMode t) (_trackEnded t)
    (_realDeviceId t) (_streamEffect t) (_originalStream t)
    (_stopStreamInProgress t).

Definition set_track (v : option TrackRef) (t : JitsiLocalTrack) :=
  mkTrack (type t) (videoType t) (stream t) v (containers t) (conference t)
    (disposed t) (rtcId t) (deviceId t) (_setEffectInProgress t)
    (_constraints t) (_prevSetMuted t) (_facingMode t) (_trackEnded t)
    (_realDeviceId t) (_streamEffect t) (_originalStream t)
    (_stopStreamInProgress t).

Definition set_setEffectInProgress (v : bool) (t : JitsiLocalTrack) :=
  mkTrack (type t) (videoType t) (stream t) (track t) (containers t)
    (conference t) (disposed t) (rtcId t) (deviceId t) v
    (_constraints t) (_prevSetMuted t) (_facingMode t) (_trackEnded t)
    (_realDeviceId t) (_streamEffect t) (_originalStream t)
    (_stopStreamInProgress t).

Definition set_prevSetMuted (v : Promise) (t : JitsiLocalTrack) :=
  mkTrack (type t) (videoType t) (stream t) (track t) (containers t)
    (conference t) (disposed t) (rtcId t) (deviceId t)
    (_setEffectInProgress t) (_constraints t) v (_facingMode t)
    (_trackEnded t) (_realDeviceId t) (_streamEffect t) (_originalStream t)
    (_stopStreamInProgress t).

Definition set_trackEnded (v : bool) (t : JitsiLocalTrack) :=
  mkTrack (type t) (videoType t) (stream t) (track t) (containers t)
    (conference t) (disposed t) (rtcId t) (deviceId t)
    (_setEffectInProgress t) (_constraints t) (_prevSetMuted t)
    (_facingMode t) v (_realDeviceId t) (_streamEffect t)
    (_originalStream t) (_stopStreamInProgress t).

Definition set_realDeviceId (v : option string) (t : JitsiLocalTrack) :=
  mkTrack (type t) (videoType t) (stream t) (track t) (containers t)
    (conference t) (disposed t) (rtcId t) (deviceId t)
    (_setEffectInProgress t) (_constraints t) (_prevSetMuted t)
    (_facingMode t) (_trackEnded t) v (_streamEffect t)
    (_originalStream t) (_stopStreamInProgress t).

Definition set_streamEffect (v : option EffectRef) (t : JitsiLocalTrack) :=
  mkTrack (type t) (videoType t) (stream t) (track t) (containers t)
    (conference t) (disposed t) (rtcId t) (deviceId t)
    (_setEffectInProgress t) (_constraints t) (_prevSetMuted t)
    (_facingMode t) (_trackEnded t) (_realDeviceId t) v
    (_originalStream t) (_stopStreamInProgress t).

Definition set_originalStream (v : option StreamRef) (t : JitsiLocalTrack) :=
  mkTrack (type t) (videoType t) (stream t) (track t) (containers t)
    (conference t) (disposed t) (rtcId t) (deviceId t)
    (_setEffectInProgress t) (_constraints t) (_prevSetMuted t)
    (_facingMode t) (_trackEnded t) (_realDeviceId t) (_streamEffect t)
    v (_stopStreamInProgress t).

Definition set_stopStreamInProgress (v : bool) (t : JitsiLocalTrack) :=
  mkTrack (type t) (videoType t) (stream t) (track t) (containers t)
    (conference t) (disposed t) (rtcId t) (deviceId t)
    (_setEffectInProgress t) (_constraints t) (_prevSetMuted t)
    (_facingMode t) (_trackEnded t) (_realDeviceId t) (_streamEffect t)
    (_originalStream t) v.

(** ** The store of browser objects and the trace *)

Record World := mkWorld {
  tracks : TrackRef -> MediaStreamTrack.t;
  streams : StreamRef -> MediaStream.t;
  trace : list Event
}.

Record State := mkState { this : JitsiLocalTrack; world : World }.

(** ** The collaborators *)

(** An object that implements IStreamEffect.  [isMuted] and [setMuted] are
    optional members.  What [isMuted()] and [startEffect(stream)] answer may
    depend on every call made before. *)
Record IStreamEffect := mkEffect {
  isEnabled : JitsiLocalTrack -> bool;
  isMuted_member : option (list Event -> bool);
  setMuted_member : bool;
  startEffect : list Event -> option StreamRef -> StreamRef
}.

Record Env := mkEnv {
  (* modules/browser *)
  isReactNative : bool;
  doesVideoMuteByStreamRemove : bool;
  (* the effect objects callers pass in *)
  effectObject : EffectRef -> IStreamEffect;
  JSON_stringify : EffectRef -> string;
  (* RTCUtils *)
  obtainAudioAndVideoPermissions :
    list Event -> GumOptions.t -> JsError + list IStreamInfo.t;
  (* JitsiConference: [None] is a promise that resolves *)
  _removeLocalTrackFromPc : list Event -> option JsError;
  _addLocalTrackToPc : list Event -> option JsError;
  _setTrackMuteStatus : list Event -> bool
}.

(** ** Computations: state, and a rejection that keeps the state *)

Definition M (A : Type) := State -> Outcome A * State.

Definition ret {A} (a : A) : M A := fun s => (Fulfilled a, s).

Definition throw {A} (e : JsError) : M A := fun s => (Rejected e, s).

Definition bind {A B} (m : M A) (k : A -> M B) : M B :=
  fun s =>
    match m s with
    | (Fulfilled a, s') => k a s'
    | (Rejected e, s') => (Rejected e, s')
    end.

(** [try { m } catch (error) { h error }], also [promise.catch(h)]. *)
Definition catch {A} (m : M A) (h : JsError -> M A) : M A :=
  fun s =>
    match m s with
    | (Fulfilled a, s') => (Fulfilled a, s')
    | (Rejected e, s') => h e s'
    end.

(** [promise.then(f, g)] *)
Definition then_ {A B} (m : M A) (f : A -> M B) (g : JsError -> M B) : M B :=
  fun s =>
    match m s with
    | (Fulfilled a, s') => f a s'
    | (Rejected e, s') => g e s'
    end.

Declare Scope js_scope.
Delimit Scope js_scope with js.
Notation "x <- c1 ;; c2" := (bind c1 (fun x => c2))
  (at level 61, c1 at next level, right associativity) : js_scope.
Notation "c1 ;; c2" := (bind c1 (fun _ => c2))
  (at level 61, right associativity) : js_scope.
Open Scope js_scope.

Definition get : M State := fun s => (Fulfilled s, s).

Definition update (f : JitsiLocalTrack -> JitsiLocalTrack) : M unit :=
  fun s => (Fulfilled tt, mkState (f (this s)) (world s)).

Definition call (ev : Event) : M unit :=
  fun s =>
    let w := world s in
    (Fulfilled tt, mkState (this s) (mkWorld (tracks w) (streams w) (ev :: trace w))).

(** [when c m] is [if (c) { m }]. *)
Definition when (c : bool) (m : M unit) : M unit := if c then m else ret tt.

(** An awaited collaborator promise: resolves, or rejects with its reason. *)
Definition await (answer : option JsError) : M unit :=
  match answer with
  | None => ret tt
  | Some e => throw e
  end.

Fixpoint forEach {A} (l : list A) (f : A -> M unit) : M unit :=
  match l with
  | [] => ret tt
  | x :: l' => f x ;; forEach l' f
  end.

(** [track.enabled = b] on the object a reference names. *)
Definition write_enabled (r : TrackRef) (b : bool) : M unit :=
  fun s =>
    let w := world s in
    (Fulfilled tt,
     mkState (this s)
       (mkWorld
          (fun r' => if Nat.eqb r' r
                     then MediaStreamTrack.set_enabled b (tracks w r')
                     else tracks w r')
          (streams w) (trace w))).

(** ** Strings *)

Fixpoint strip_prefix (p s : string) : option string :=
  match p, s with
  | EmptyString, _ => Some s
  | String a p', String b s' =>
      if Ascii.eqb a b then strip_prefix p' s' else None
  | String _ _, EmptyString => None
  end.

(** [s.replace(pattern, replacement)] with a string pattern: the first
    occurrence only. *)
Fixpoint replace (pattern replacement s : string) : string :=
  match strip_prefix pattern s with
  | Some rest => replacement ++ rest
  | None =>
      match s with
      | EmptyString => EmptyString
      | String c s' => String c (replace pattern replacement s')
      end
  end.

(** ** The class *)

Section JitsiLocalTrack.

Variable E : Env.

(** *** What the class inherits from JitsiTrack *)

(** Modelled from the spec: JitsiTrack.getType, isAudioTrack and
    isVideoTrack (the base class is not among the sources), the capability
    predicates: pure queries over the track's media kind. *)
Definition getType (t : JitsiLocalTrack) : MediaType.t := type t.

Definition isAudioTrack (t : JitsiLocalTrack) : bool :=
  MediaType.eqb (getType t) MediaType.AUDIO.

Definition isVideoTrack (t : JitsiLocalTrack) : bool :=
  MediaType.eqb (getType t) MediaType.VIDEO.

(** Modelled from the spec: JitsiTrack.getTrack, the capture handle's
    media stream track. *)
Definition getTrack (t : JitsiLocalTrack) : option TrackRef := track t.

(** Modelled from the spec: JitsiTrack.isActive, whether the stream the
    track holds is live; it is what the stream object reports. *)
Definition isActive (w : World) (r : StreamRef) : bool :=
  MediaStream.active (streams w r).

(** Modelled from the spec: JitsiTrack._setStream stores the new capture
    handle (and moves the stored handlers to it, which the trace does not
    record). *)
Definition _setStream (v : option StreamRef) : M unit :=
  update (set_stream v).

(** Modelled from the spec: JitsiTrack._unregisterHandlers. *)
Definition _unregisterHandlers : M unit := call UnregisterHandlers.

(** Modelled from the spec: RTCUtils.stopMediaStream, capture release:
    synchronous, best effort, never throws. *)
Definition stopMediaStream (v : option StreamRef) : M unit :=
  call (StopMediaStream v).

(** Modelled from the spec: RTCUtils.attachMediaStream followed by the
    [.catch] of its callers: a failure is logged, never fatal. *)
Definition attachMediaStream (cont : ContainerRef) (v : option StreamRef)
  : M unit :=
  call (AttachMediaStream cont v).

(** [conference._removeLocalTrackFromPc(this)]: the call, then its promise. *)
Definition removeLocalTrackFromPc (c : ConferenceRef) : M unit :=
  call (RemoveLocalTrackFromPc c) ;;
  s <- get ;;
  await (_removeLocalTrackFromPc E (trace (world s))).

(** [conference._addLocalTrackToPc(this)] *)
Definition addLocalTrackToPc (c : ConferenceRef) : M unit :=
  call (AddLocalTrackToPc c) ;;
  s <- get ;;
  await (_addLocalTrackToPc E (trace (world s))).

(** [stream.getTracks()[0]] *)
Definition firstTrack (w : World) (r : StreamRef) : option TrackRef :=
  hd_error (MediaStream.getTracks (streams w r)).

(** *** isMuted *)

(** [this._streamEffect?.isMuted] *)
Definition effect_isMuted (t : JitsiLocalTrack) : option (list Event -> bool) :=
  match _streamEffect t with
  | Some e => isMuted_member (effectObject E e)
  | None => None
  end.

(** [this.track?.enabled], with undefined read as false by [!]. *)
Definition track_enabled (s : State) : bool :=
  match track (this s) with
  | Some r => MediaStreamTrack.enabled (tracks (world s) r)
  | None => false
  end.

Definition isMuted (s : State) : bool :=
  match stream (this s) with
  | None => true
  | Some r =>
      if isVideoTrack (this s) && negb (isActive (world s) r) then true
      else
        match effect_isMuted (this s) with
        | Some f => f (trace (world s))
        | None => negb (track_enabled s)
        end
  end.

(** *** Effects *)

Definition _startStreamEffect (effect : EffectRef) : M unit :=
  update (set_streamEffect (Some effect)) ;;
  s <- get ;;
  let original := stream (this s) in
  update (set_originalStream original) ;;
  call (StartEffect effect original) ;;
  s' <- get ;;
  let out := startEffect (effectObject E effect) (trace (world s')) original in
  _setStream (Some out) ;;
  update (set_track (firstTrack (world s') out)).

Definition _stopStreamEffect : M unit :=
  s <- get ;;
  match _streamEffect (this s) with
  | Some e =>
      call (StopEffect e) ;;
      _setStream (_originalStream (this s)) ;;
      update (set_originalStream None) ;;
      s' <- get ;;
      update (set_track
                match stream (this s') with
                | Some r => firstTrack (world s') r
                | None => None
                end)
  | None => ret tt
  end.

Definition _switchStreamEffect (effect : option EffectRef) : M unit :=
  s <- get ;;
  when (match _streamEffect (this s) with Some _ => true | None => false end)
       (_stopStreamEffect ;; update (set_streamEffect None)) ;;
  match effect with
  | Some e => _startStreamEffect e
  | None => ret tt
  end.

Definition stopStream : M unit :=
  update (set_stopStreamInProgress true) ;;
  s <- get ;;
  stopMediaStream (stream (this s)) ;;
  update (set_stopStreamInProgress false).

(** *** Mute and unmute *)

(** [this._realDeviceId || this.deviceId]: an empty string is falsy. *)
Definition getDeviceId (t : JitsiLocalTrack) : string :=
  match _realDeviceId t with
  | Some id => if String.eqb id "" then deviceId t else id
  | None => deviceId t
  end.

(** [this.videoType === VideoType.X] *)
Definition videoType_is (x : VideoType.t) (t : JitsiLocalTrack) : bool :=
  videoType_eqb (videoType t) (Some x).

Definition getCameraFacingMode : M (option CameraFacingMode.t) :=
  s <- get ;;
  if isVideoTrack (this s) && videoType_is VideoType.CAMERA (this s) then
    match track (this s) with
    | None => throw TypeError
    | Some r =>
        match MediaStreamTrack.getSettings (tracks (world s) r) with
        | Some {| MediaTrackSettings.facingMode := Some m |} => ret (Some m)
        | _ =>
            match _facingMode (this s) with
            | Some m => ret (Some m)
            | None => ret (Some CameraFacingMode.USER)
            end
        end
    end
  else ret None.

Definition _addStreamToConferenceAsUnmute : M unit :=
  s <- get ;;
  match conference (this s) with
  | None => ret tt
  | Some c => catch (addLocalTrackToPc c) (fun error => throw (ErrorOf error))
  end.

(** The promise the hard mute path builds around
    [_removeStreamFromConferenceAsMute(successCallback, reject)]. *)
Definition _removeStreamFromConferenceAsMute (successCallback : M unit)
  : M unit :=
  s <- get ;;
  match conference (this s) with
  | None => successCallback
  | Some c =>
      then_ (removeLocalTrackFromPc c)
            (fun _ => successCallback)
            (fun error => throw (ErrorOf error))
  end.

Definition _sendMuteStatus (mute : bool) : M unit :=
  s <- get ;;
  match conference (this s) with
  | Some c =>
      call (SetTrackMuteStatus c mute) ;;
      s' <- get ;;
      when (_setTrackMuteStatus E (trace (world s'))) (call (SendPresence c))
  | None => ret tt
  end.

(** The options of the capture request of an unmute. *)
Definition streamOptions : M GumOptions.t :=
  s <- get ;;
  let t := this s in
  let constraints := GumConstraints.mk (Some (_constraints t)) None in
  if videoType_is VideoType.CAMERA t then
    facingMode <- getCameraFacingMode ;;
    ret (GumOptions.mk [MediaType.VIDEO] (Some (getDeviceId t)) None
           (match _streamEffect t with Some e => [e] | None => [] end)
           facingMode constraints)
  else
    ret (GumOptions.mk [MediaType.DESKTOP] None None [] None constraints).

(** [RTCUtils.obtainAudioAndVideoPermissions(options)] *)
Definition obtain (options : GumOptions.t) : M (list IStreamInfo.t) :=
  call (ObtainAudioAndVideoPermissions options) ;;
  s <- get ;;
  match obtainAudioAndVideoPermissions E (trace (world s)) options with
  | inl error => throw error
  | inr streamsInfo => ret streamsInfo
  end.

(** The three ways [_setMuted] changes the mute state. *)
Definition softPath (muted : bool) : M unit :=
  s <- get ;;
  match _streamEffect (this s) with
  | Some e =>
      if setMuted_member (effectObject E e)
      then call (EffectSetMuted e muted)
      else match track (this s) with
           | Some r => write_enabled r (negb muted)
           | None => ret tt
           end
  | None =>
      match track (this s) with
      | Some r => write_enabled r (negb muted)
      | None => ret tt
      end
  end.

Definition hardMute : M unit :=
  _removeStreamFromConferenceAsMute
    (s <- get ;;
     when (match _streamEffect (this s) with Some _ => true | None => false end)
          _stopStreamEffect ;;
     _unregisterHandlers ;;
     stopStream ;;
     _setStream None).

Definition hardUnmute : M unit :=
  options <- streamOptions ;;
  streamsInfo <- obtain options ;;
  s <- get ;;
  match find (fun info =>
                MediaType.eqb
                  (MediaStreamTrack.kind (tracks (world s) (IStreamInfo.track info)))
                  (getType (this s)))
             streamsInfo with
  | Some streamInfo =>
      _setStream (Some (IStreamInfo.stream streamInfo)) ;;
      update (set_track (Some (IStreamInfo.track streamInfo))) ;;
      when (negb (videoType_eqb (videoType (this s)) (IStreamInfo.videoType streamInfo)))
           (update (set_videoType (IStreamInfo.videoType streamInfo))) ;;
      match _streamEffect (this s) with
      | Some e => _startStreamEffect e
      | None => ret tt
      end ;;
      s' <- get ;;
      forEach (containers (this s'))
              (fun cont => attachMediaStream cont (stream (this s'))) ;;
      _addStreamToConferenceAsUnmute
  | None => throw (JitsiTrackError TRACK_NO_STREAM_FOUND)
  end.

(** [browser.isReactNative() ? this.videoType === VideoType.DESKTOP
                             : browser.doesVideoMuteByStreamRemove()] *)
Definition mutesByStreamRemove (t : JitsiLocalTrack) : bool :=
  if isReactNative E then videoType_is VideoType.DESKTOP t
  else doesVideoMuteByStreamRemove E.

(** The last [.then] of [_setMuted]. *)
Definition muteChanged (muted : bool) : M unit :=
  _sendMuteStatus muted ;;
  s <- get ;;
  match conference (this s) with
  | Some c => when (isVideoTrack (this s)) (call (SendBridgeVideoTypeMessage c))
  | None => ret tt
  end ;;
  call Emit_TRACK_MUTE_CHANGED.

Definition _setMuted (muted : bool) : M unit :=
  s <- get ;;
  if Bool.eqb (isMuted s) muted && negb (videoType_is VideoType.DESKTOP (this s))
  then ret tt
  else if disposed (this s)
  then throw (JitsiTrackError TRACK_IS_DISPOSED)
  else
    (if isAudioTrack (this s) || negb (mutesByStreamRemove (this s))
     then softPath muted
     else if muted then hardMute else hardUnmute) ;;
    muteChanged muted.

(** *** The queue of mute and unmute

    [_queueSetMuted] replaces [_prevSetMuted] by
    [_prevSetMuted.then(setMuted, setMuted)] and returns it. *)
Definition _queueSetMuted (muted : bool) (t : JitsiLocalTrack)
  : Promise * JitsiLocalTrack :=
  let setMuted := muted in
  let p := Then (_prevSetMuted t) setMuted setMuted in
  (p, set_prevSetMuted p t).

Definition mute (t : JitsiLocalTrack) : Promise * JitsiLocalTrack :=
  _queueSetMuted true t.


(** What the event loop does with a promise of the queue: a settled promise
    hands over its outcome; [prev.then(f, g)] waits for [prev] and then calls
    the handler that matches its outcome; the promise settles as the handler's
    promise does. *)
Fixpoint settle (p : Promise) : M unit :=
  match p with
  | Settled (Fulfilled _) => ret tt
  | Settled (Rejected e) => throw e
  | Then prev onFulfilled onRejected =>
      then_ (settle prev)
            (fun _ => _setMuted onFulfilled)
            (fun _ => _setMuted onRejected)
  end.

(** The event loop runs until the queue of the track is empty. *)
Definition drain : M unit :=
  fun s =>
    let (o, s') := settle (_prevSetMuted (this s)) s in
    (o, mkState (set_prevSetMuted (Settled o) (this s')) (world s')).

(** [_setMuted] called for each submission in turn, each on the state the
    one before left, whatever its outcome; the outcomes come oldest first. *)
Fixpoint in_turn (submissions : list bool) (s : State)
  : list (Outcome unit) * State :=
  match submissions with
  | [] => ([], s)
  | muted :: rest =>
      let (o, s') := _setMuted muted s in
      let (os, s'') := in_turn rest s' in
      (o :: os, s'')
  end.

(** The submissions made one after the other, before any of them runs. *)
Definition submit_all (submissions : list bool) (t : JitsiLocalTrack)
  : JitsiLocalTrack :=
  fold_left (fun t muted => snd (_queueSetMuted muted t)) submissions t.

(** The promises [_queueSetMuted] returned for them, oldest first. *)
Fixpoint returned (submissions : list bool) (t : JitsiLocalTrack)
  : list Promise :=
  match submissions with
  | [] => []
  | muted :: rest =>
      let (p, t') := _queueSetMuted muted t in
      p :: returned rest t'
  end.

(** *** setEffect *)

(** The promise [setEffect] returns is settled already, or waits for the
    conference to take the track off the peer connection. *)
Inductive Started :=
| Now (o : Outcome unit)
| Later (conference : ConferenceRef).

(** What both branches of [setEffect] do to switch: the effect is
    switched and, for a video track, the stream is attached to every
    container again. *)
Definition switchAndShow (effect : option EffectRef) : M unit :=
  _switchStreamEffect effect ;;
  s <- get ;;
  when (isVideoTrack (this s))
       (forEach (containers (this s))
          (fun cont => attachMediaStream cont (stream (this s)))).

(** [setEffect] up to its [return]. *)
Definition setEffect_call (effect : option EffectRef) (s : State)
  : Started * State :=
  let t := this s in
  match _streamEffect t, effect with
  | None, None => (Now (Fulfilled tt), s)
  | _, _ =>
      if match effect with
         | Some e => negb (isEnabled (effectObject E e) t)
         | None => false
         end
      then (Now (Rejected (Error "Incompatible effect instance!")), s)
      else if _setEffectInProgress t
      then (Now (Rejected (Error "setEffect already in progress!")), s)
      else if isMuted s && negb (isAudioTrack t)
      then (Now (Fulfilled tt), mkState (set_streamEffect effect t) (world s))
      else
        match conference t with
        | None =>
            let (o, s') := switchAndShow effect s in
            (Now o, s')
        | Some c =>
            let (_, s') :=
              (update (set_setEffectInProgress true) ;;
               call (RemoveLocalTrackFromPc c)) s in
            (Later c, s')
        end
  end.

(** The chain [.then(...).then(...).catch(...)] on the promise of
    [conference._removeLocalTrackFromPc(this)]. *)
Definition setEffect_chain (effect : option EffectRef) (c : ConferenceRef)
  : M unit :=
  catch
    ((s <- get ;; await (_removeLocalTrackFromPc E (trace (world s)))) ;;
     (switchAndShow effect ;;
      addLocalTrackToPc c) ;;
     update (set_setEffectInProgress false))
    (fun error =>
       update (set_setEffectInProgress false) ;;
       _switchStreamEffect None ;;
       throw error).

(** [setEffect] run until its promise settles. *)
Definition setEffect (effect : option EffectRef) : M unit :=
  fun s =>
    match setEffect_call effect s with
    | (Now o, s') => (o, s')
    | (Later c, s') => setEffect_chain effect c s'
    end.

(** *** The device list *)

Definition _setRealDeviceIdFromDeviceList (devices : list MediaDeviceInfo.t)
  : M unit :=
  s <- get ;;
  match getTrack (this s) with
  | None => throw TypeError
  | Some r =>
      let track := tracks (world s) r in
      let kind := MediaType.to_string (MediaStreamTrack.kind track) ++ "input" in
      let device :=
        find (fun d =>
                String.eqb (MediaDeviceInfo.kind d) kind
                && String.eqb (MediaDeviceInfo.label d) (MediaStreamTrack.label track)
                && String.eqb (MediaDeviceInfo.deviceId d) (deviceId (this s)))
             devices in
      let device :=
        match device, _realDeviceId (this s) with
        | None, Some id =>
            if String.eqb id "default" then
              let label := replace "Default - " "" (MediaStreamTrack.label track) in
              find (fun d =>
                      String.eqb (MediaDeviceInfo.kind d) kind
                      && String.eqb (MediaDeviceInfo.label d) label)
                   devices
            else device
        | _, _ => device
        end in
      match device with
      | Some d => update (set_realDeviceId (Some (MediaDeviceInfo.deviceId d)))
      | None => update (set_realDeviceId None)
      end
  end.

(** [typeof this.getTrack().readyState === 'undefined'
       && typeof this._realDeviceId !== 'undefined'
       && !devices.find(d => d.deviceId === this._realDeviceId)] *)
Definition gone_without_readyState (devices : list MediaDeviceInfo.t)
  (readyState : option ReadyState.t) (realDeviceId : option string) : bool :=
  match readyState, realDeviceId with
  | None, Some id =>
      negb (existsb (fun d => String.eqb (MediaDeviceInfo.deviceId d) id) devices)
  | _, _ => false
  end.

(** [typeof oldRealDeviceId !== 'undefined'
       && typeof this._realDeviceId === 'undefined'] *)
Definition no_longer_resolved (oldRealDeviceId realDeviceId : option string)
  : bool :=
  match oldRealDeviceId, realDeviceId with
  | Some _, None => true
  | _, _ => false
  end.

Definition _onDeviceListWillChange (devices : list MediaDeviceInfo.t) : M unit :=
  s <- get ;;
  let oldRealDeviceId := _realDeviceId (this s) in
  _setRealDeviceIdFromDeviceList devices ;;
  s' <- get ;;
  match getTrack (this s') with
  | None => throw TypeError
  | Some r =>
      when (gone_without_readyState devices
              (MediaStreamTrack.readyState (tracks (world s') r))
              (_realDeviceId (this s'))
            || no_longer_resolved oldRealDeviceId (_realDeviceId (this s')))
           (update (set_trackEnded true))
  end.

(** *** applyConstraints *)

(** The capture request of [applyConstraints]; past the first guard
    [mediaType] is 'audio', the key of [constraints]. *)
Definition constraintsRequest (mediaType : MediaType.t)
  (deviceId : option string) (audio : MediaTrackConstraints.t)
  : GumOptions.t :=
  let constraints := GumConstraints.mk None (Some audio) in
  if MediaType.eqb mediaType MediaType.AUDIO
  then GumOptions.mk [mediaType] None deviceId [] None constraints
  else GumOptions.mk [mediaType] deviceId None [] None constraints.

Definition applyConstraints (constraints : IAudioConstraints.t) : M unit :=
  s <- get ;;
  let mediaType := getType (this s) in
  if negb (isAudioTrack (this s)) then
    throw (Error ("Media " ++ MediaType.to_string mediaType
                  ++ " is not supported, track must be audio"))
  else
    let hasAudioMixEffect :=
      match _streamEffect (this s) with
      | Some e => setMuted_member (effectObject E e)
      | None => false
      end in
    match _streamEffect (this s), hasAudioMixEffect with
    | Some e, false =>
        throw (Error ("Cannot apply constraints while the effect "
                      ++ JSON_stringify E e ++ " is active"))
    | _, _ =>
        match conference (this s) with
        | Some c => removeLocalTrackFromPc c
        | None => throw TypeError
        end ;;
        when hasAudioMixEffect _stopStreamEffect ;;
        stopStream ;;
        s1 <- get ;;
        initialSettings <-
          match track (this s1) with
          | Some r =>
              match MediaStreamTrack.getSettings (tracks (world s1) r) with
              | Some settings => ret settings
              | None => throw TypeError
              end
          | None => throw TypeError
          end ;;
        let constraintsToApply := spread initialSettings constraints in
        let deviceId :=
          read (MediaTrackConstraints.deviceId constraintsToApply) in
        mediaStreamData <-
          catch
            (data <- obtain (constraintsRequest mediaType deviceId constraintsToApply) ;;
             match hd_error data with
             | Some d => ret (Some d)
             | None => throw (JitsiTrackError CONSTRAINT_FAILED)
             end)
            (fun error =>
               data <- obtain (constraintsRequest mediaType deviceId
                                 (MediaTrackConstraints.ofSettings
                                    initialSettings)) ;;
               ret (hd_error data)) ;;
        match mediaStreamData with
        | None => throw (JitsiTrackError GENERAL)
        | Some d =>
            _setStream (Some (IStreamInfo.stream d)) ;;
            update (set_track (Some (IStreamInfo.track d))) ;;
            s2 <- get ;;
            match _streamEffect (this s2) with
            | Some e => when hasAudioMixEffect (_startStreamEffect e)
            | None => ret tt
            end ;;
            match conference (this s2) with
            | Some c => addLocalTrackToPc c
            | None => throw TypeError
            end
        end
    end.

(** *** isEnded *)

Definition isEnded : M bool :=
  s <- get ;;
  if isVideoTrack (this s) && isMuted s
  then ret (_trackEnded (this s))
  else
    match getTrack (this s) with
    | None => throw TypeError
    | Some r =>
        ret (match MediaStreamTrack.readyState (tracks (world s) r) with
             | Some ReadyState.ended => true
             | _ => false
             end
             || _trackEnded (this s))
    end.

End JitsiLocalTrack.

(** * What a trace shows *)

(** A capture release. *)
Definition is_release (ev : Event) : bool :=
  match ev with
  | StopMediaStream _ => true
  | _ => false
  end.

(** How many times a capture handle was released so far. *)
Definition releases (w : World) : nat :=
  List.length (filter is_release (trace w)).

(** A capture request. *)
Definition is_obtain (ev : Event) : bool :=
  match ev with
  | ObtainAudioAndVideoPermissions _ => true
  | _ => false
  end.

(** The capture handle below the effect, if one is wrapped, else the
    handle the track holds. *)
Definition preEffectStream (t : JitsiLocalTrack) : option StreamRef :=
  match _streamEffect t with
  | Some _ => _originalStream t
  | None => stream t
  end.

(** The track is back in the state without effect it had before. *)
Definition rolledBack (before after : JitsiLocalTrack) : Prop :=
  _streamEffect after = None
  /\ stream after = preEffectStream before
  /\ _setEffectInProgress after = false
  /\ conference after = conference before.

(** The call that stops the effect in the slot, if there is one. *)
Definition stopping (slot : option EffectRef) : list Event :=
  match slot with
  | Some e => [StopEffect e]
  | None => []
  end.

(** The track is where [_setMuted(false)] takes the hard unmute path: muted
    now (or a desktop track), not disposed, not an audio track, under the
    policy of muting by removing the stream. *)
Definition onHardUnmutePath (E : Env) (s : State) : Prop :=
  Bool.eqb (isMuted E s) false
  && negb (videoType_is VideoType.DESKTOP (this s)) = false
  /\ disposed (this s) = false
  /\ isAudioTrack (this s) = false
  /\ mutesByStreamRemove E (this s) = true.

(** [info.track.kind === this.getType()] *)
Definition kindMatches (s : State) (info : IStreamInfo.t) : bool :=
  MediaType.eqb
    (MediaStreamTrack.kind (tracks (world s) (IStreamInfo.track info)))
    (getType (this s)).

(** The state with one more call on its trace. *)
Definition called (ev : Event) (s : State) : State :=
  mkState (this s)
    (mkWorld (tracks (world s)) (streams (world s)) (ev :: trace (world s))).

(** [typeof this._streamEffect?.setMuted === 'function'] *)
Definition hasAudioMixEffect (E : Env) (t : JitsiLocalTrack) : bool :=
  match _streamEffect t with
  | Some e => setMuted_member (effectObject E e)
  | None => false
  end.

(** The state [applyConstraints] reads the settings in: the track is off the
    peer connection, an audio mix effect is stopped, the stream is released. *)
Definition tornDown (E : Env) (c : ConferenceRef) (s : State) : State :=
  snd ((removeLocalTrackFromPc E c ;;
        when (hasAudioMixEffect E (this s)) _stopStreamEffect ;;
        stopStream) s).

(** [this.track.getSettings()], where it can be read. *)
Definition settingsOf (s : State) : option MediaTrackSettings.t :=
  match track (this s) with
  | Some r => MediaStreamTrack.getSettings (tracks (world s) r)
  | None => None
  end.

(** A capture request that [applyConstraints] takes as failed: the promise
    rejects, or it resolves with no stream. *)
Definition failed (answer : JsError + list IStreamInfo.t) : Prop :=
  match answer with
  | inl _ => True
  | inr [] => True
  | inr (_ :: _) => False
  end.

(** The capture requests on a trace, newest first. *)
Definition obtains (tr : list Event) : list Event := filter is_obtain tr.

(** The listener of DEVICE_LIST_WILL_CHANGE called for one notification
    after the other.  Each notification comes with the store of its time:
    the browser objects may have changed in between. *)
Fixpoint notified (notifications : list (World * list MediaDeviceInfo.t))
  (t : JitsiLocalTrack) : JitsiLocalTrack :=
  match notifications with
  | [] => t
  | (w, devices) :: rest =>
      notified rest (this (snd (_onDeviceListWillChange devices (mkState t w))))
  end.

(** The notification TRACK_MUTE_CHANGED. *)
Definition is_emit (ev : Event) : bool :=
  match ev with
  | Emit_TRACK_MUTE_CHANGED => true
  | _ => false
  end.

(** How many times TRACK_MUTE_CHANGED was emitted so far. *)
Definition emits (w : World) : nat :=
  List.length (filter is_emit (trace w)).

(** A call to the conference that takes the track off or puts it on the
    peer connection. *)
Definition is_transport (ev : Event) : bool :=
  match ev with
  | RemoveLocalTrackFromPc _ | AddLocalTrackToPc _ => true
  | _ => false
  end.

(** The fields [_setMuted] has no business with: after it they are what
    they were. *)
Definition keptByMute (t t' : JitsiLocalTrack) : Prop :=
  type t' = type t
  /\ containers t' = containers t
  /\ conference t' = conference t
  /\ disposed t' = disposed t
  /\ deviceId t' = deviceId t
  /\ _setEffectInProgress t' = _setEffectInProgress t
  /\ _prevSetMuted t' = _prevSetMuted t
  /\ _trackEnded t' = _trackEnded t
  /\ _realDeviceId t' = _realDeviceId t
  /\ _streamEffect t' = _streamEffect t.

(** [_setMuted(muted)] gets past its first guard: the track is not in the
    wanted state already, or it is a desktop track. *)
Definition pastFirstGuard (E : Env) (muted : bool) (s : State) : bool :=
  negb (Bool.eqb (isMuted E s) muted
        && negb (videoType_is VideoType.DESKTOP (this s))).

(** The capture request of the unmute of a desktop track. *)
Definition desktopRequest (t : JitsiLocalTrack) : GumOptions.t :=
  GumOptions.mk [MediaType.DESKTOP] None None [] None
    (GumConstraints.mk (Some (_constraints t)) None).

(** The track is where [_setMuted(muted)] takes a path that removes or
    obtains the stream: past the first guard, not disposed, not an audio
    track, under the policy of muting by removing the stream. *)
Definition onHardPath (E : Env) (muted : bool) (s : State) : Prop :=
  pastFirstGuard E muted s = true
  /\ disposed (this s) = false
  /\ isAudioTrack (this s) = false
  /\ mutesByStreamRemove E (this s) = true.

(** [setEffect(effect)] gets past its guards and switches: there is an
    effect to remove or to set, the new effect accepts the track, no switch
    is in progress, and the track is an audio track or is not muted. *)
Definition switchesNow (E : Env) (effect : option EffectRef) (s : State)
  : Prop :=
  (_streamEffect (this s) <> None \/ effect <> None)
  /\ match effect with
     | Some e => isEnabled (effectObject E e) (this s) = true
     | None => True
     end
  /\ _setEffectInProgress (this s) = false
  /\ isMuted E s && negb (isAudioTrack (this s)) = false.

(** The call that starts an effect on a stream, if there is an effect. *)
Definition starting (effect : option EffectRef) (on : option StreamRef)
  : list Event :=
  match effect with
  | Some e => [StartEffect e on]
  | None => []
  end.

(** An attachment of a stream to a container. *)
Definition is_attach (ev : Event) : bool :=
  match ev with
  | AttachMediaStream _ _ => true
  | _ => false
  end.

(** The fields [setEffect] has no business with. *)
Definition keptBySetEffect (t t' : JitsiLocalTrack) : Prop :=
  type t' = type t
  /\ videoType t' = videoType t
  /\ containers t' = containers t
  /\ conference t' = conference t
  /\ disposed t' = disposed t
  /\ deviceId t' = deviceId t
  /\ _prevSetMuted t' = _prevSetMuted t
  /\ _trackEnded t' = _trackEnded t
  /\ _realDeviceId t' = _realDeviceId t
  /\ _stopStreamInProgress t' = _stopStreamInProgress t.

(** The error [applyConstraints] ends with when its second capture request
    gives no stream: the rejection of RTCUtils, or GENERAL. *)
Definition surfaced (answer : JsError + list IStreamInfo.t) : option JsError :=
  match answer with
  | inl error => Some error
  | inr [] => Some (JitsiTrackError GENERAL)
  | inr (_ :: _) => None
  end.

(** How many times the conference was asked to take the track off or to put
    it on the peer connection. *)
Definition transports (w : World) : nat :=
  List.length (filter is_transport (trace w)).

(** The kind enumerateDevices gives the devices of a media stream track:
    [`${track.kind}input`]. *)
Definition deviceKind (w : World) (k : TrackRef) : string :=
  MediaType.to_string (MediaStreamTrack.kind (tracks w k)) ++ "input".

(** The device the track was asked for: same kind, same label, same id. *)
Definition matchesExactly (s : State) (k : TrackRef) (d : MediaDeviceInfo.t)
  : bool :=
  String.eqb (MediaDeviceInfo.kind d) (deviceKind (world s) k)
  && String.eqb (MediaDeviceInfo.label d)
       (MediaStreamTrack.label (tracks (world s) k))
  && String.eqb (MediaDeviceInfo.deviceId d) (deviceId (this s)).

(** A device of the kind of the track that carries a given label. *)
Definition matchesLabel (s : State) (k : TrackRef) (label : string)
  (d : MediaDeviceInfo.t) : bool :=
  String.eqb (MediaDeviceInfo.kind d) (deviceKind (world s) k)
  && String.eqb (MediaDeviceInfo.label d) label.

(** * Further methods of the class *)

Definition set_facingMode (v : option CameraFacingMode.t)
  (t : JitsiLocalTrack) :=
  mkTrack (type t) (videoType t) (stream t) (track t) (containers t)
    (conference t) (disposed t) (rtcId t) (deviceId t)
    (_setEffectInProgress t) (_constraints t) (_prevSetMuted t) v
    (_trackEnded t) (_realDeviceId t) (_streamEffect t) (_originalStream t)
    (_stopStreamInProgress t).

(** ** The camera switch *)

(** [_switchCamera].  [native k] is the member [_switchCamera] of the media
    stream track [k]: [None] where it is not a function (it is one in
    react-native-webrtc only); the native method acts on the browser's
    objects. *)
Definition _switchCamera (native : TrackRef -> option (World -> World))
  : M unit :=
  s <- get ;;
  if isVideoTrack (this s) && videoType_is VideoType.CAMERA (this s) then
    match track (this s) with
    | None => throw TypeError
    | Some k =>
        match native k with
        | Some run =>
            (fun s => (Fulfilled tt, mkState (this s) (run (world s)))) ;;
            s <- get ;;
            update (set_facingMode
                      (match _facingMode (this s) with
                       | Some CameraFacingMode.ENVIRONMENT =>
                           Some CameraFacingMode.USER
                       | _ => Some CameraFacingMode.ENVIRONMENT
                       end))
        | None => ret tt
        end
    end
  else ret tt.

(** The other camera. *)
Definition opposite (m : CameraFacingMode.t) : CameraFacingMode.t :=
  match m with
  | CameraFacingMode.ENVIRONMENT => CameraFacingMode.USER
  | CameraFacingMode.USER => CameraFacingMode.ENVIRONMENT
  end.

(** The settings of the media stream track of the track say nothing about
    the facing mode. *)
Definition settingsSilent (s : State) : Prop :=
  match track (this s) with
  | Some k =>
      match MediaStreamTrack.getSettings (tracks (world s) k) with
      | Some settings => MediaTrackSettings.facingMode settings = None
      | None => True
      end
  | None => True
  end.

(** ** dispose *)

Inductive RTCEvent := DEVICE_LIST_WILL_CHANGE | AUDIO_OUTPUT_DEVICE_CHANGED.

(** What [dispose] needs from outside the class: [conference.removeTrack],
    [RTCUtils.removeListener], whether the constructor subscribed the track
    to the changes of the audio output device (the field
    [_onAudioOutputDeviceChanged], set there and nowhere else), and
    [JitsiTrack.dispose]. *)
Record Outside := mkOutside {
  removeTrack : ConferenceRef -> M unit;
  removeListener : RTCEvent -> M unit;
  _onAudioOutputDeviceChanged : bool;
  super_dispose : M unit
}.

(** What [dispose] does once the stream is stopped. *)
Definition unsubscribe (O : Outside) : M unit :=
  removeListener O DEVICE_LIST_WILL_CHANGE ;;
  when (_onAudioOutputDeviceChanged O)
       (removeListener O AUDIO_OUTPUT_DEVICE_CHANGED) ;;
  super_dispose O.

Definition dispose (E : Env) (O : Outside) : M unit :=
  s <- get ;;
  if disposed (this s) then ret tt
  else
    when (match _streamEffect (this s) with Some _ => true | None => false end)
         (setEffect E None) ;;
    s <- get ;;
    match conference (this s) with
    | Some c => removeTrack O c
    | None => ret tt
    end ;;
    s <- get ;;
    when (match stream (this s) with Some _ => true | None => false end)
         stopStream ;;
    unsubscribe O.

(** ** Bytes sent *)

(** The fields [onByteSentStatsReceived] works on, and the checks it has
    handed to [setTimeout] (each with the [bytesSent] its closure holds),
    newest first. *)
Record SentData := mkSentData {
  _hasSentData : bool;
  _testDataSent : bool;
  timeouts : list Z
}.

(** What the constructor sets. *)
Definition freshSentData : SentData := mkSentData false true [].

(** [onByteSentStatsReceived(tpc, bytesSent)], with the answer of
    [tpc.getConnectionState()]. *)
Definition onByteSentStatsReceived (getConnectionState : string)
  (bytesSent : Z) (d : SentData) : SentData :=
  let d :=
    if (0 <? bytesSent)%Z
    then mkSentData true (_testDataSent d) (timeouts d)
    else d in
  let iceConnectionState := getConnectionState in
  if _testDataSent d && String.eqb iceConnectionState "connected"
  then mkSentData (_hasSentData d) false (bytesSent :: timeouts d)
  else d.

(** The check handed to [setTimeout], when it runs: whether it sends
    NO_BYTES_SENT. *)
Definition timeout_sends_NO_BYTES_SENT (d : SentData) : bool :=
  negb (_hasSentData d).

(** The reports of a peer connection, oldest first, each with the
    connection state at the time. *)
Definition reports (rs : list (string * Z)) (d : SentData) : SentData :=
  fold_left (fun d r => onByteSentStatsReceived (fst r) (snd r) d) rs d.

(** ** The no-data monitor *)

Inductive Diagnostic :=
| Emit_NO_DATA_FROM_SOURCE (value : bool)
| Analytics_NO_DATA_FROM_SOURCE (media_type : MediaType.t) (value : bool)
| Analytics_TRACK_UNMUTED (media_type : MediaType.t) (value : Z).

(** The time of the last mute signal and what the monitor has sent, newest
    first. *)
Record Monitor := mkMonitor {
  _trackMutedTS : Z;
  sent : list Diagnostic
}.

Inductive TrackEvent := track_mute | track_unmute | track_ended.

Section NoDataFromSource.

Variable E : Env.

(** [this._effectEnabled]: the class declares the field and never assigns
    it. *)
Variable _effectEnabled : bool.

(** [track.muted] of a media stream track, [None] where the browser has no
    such property. *)
Variable muted : TrackRef -> option bool.

Definition isReceivingData (s : State) : Outcome bool :=
  let t := this s in
  if isVideoTrack t
     && (isMuted E s || _stopStreamInProgress t
         || videoType_is VideoType.DESKTOP t)
  then Fulfilled true
  else
    match stream t with
    | None => Fulfilled false
    | Some r =>
        match (if _effectEnabled then _originalStream t else Some r) with
        | None => Rejected TypeError
        | Some r' =>
            Fulfilled
              (existsb
                 (fun k =>
                    match MediaStreamTrack.readyState (tracks (world s) k) with
                    | None | Some ReadyState.live => true
                    | Some ReadyState.ended => false
                    end
                    && match muted k with
                       | None | Some false => true
                       | Some true => false
                       end)
                 (MediaStream.getTracks (streams (world s) r')))
        end
    end.

Definition _fireNoDataFromSourceEvent (s : State) (m : Monitor)
  : Outcome unit * Monitor :=
  match isReceivingData s with
  | Rejected e => (Rejected e, m)
  | Fulfilled receiving =>
      let value := negb receiving in
      (Fulfilled tt,
       mkMonitor (_trackMutedTS m)
         (Analytics_NO_DATA_FROM_SOURCE (getType (this s)) value
          :: Emit_NO_DATA_FROM_SOURCE value :: sent m))
  end.

Definition _isNoDataFromSourceEventsEnabled (t : JitsiLocalTrack) : bool :=
  negb (isVideoTrack t) || negb (videoType_is VideoType.DESKTOP t).

(** The handlers [_initNoDataFromSourceHandlers] sets; [now] is what
    [window.performance.now()] answers when the handler asks. *)
Definition on_track_mute (now : Z) (s : State) (m : Monitor)
  : Outcome unit * Monitor :=
  _fireNoDataFromSourceEvent s (mkMonitor now (sent m)).

Definition on_track_unmute (now : Z) (s : State) (m : Monitor)
  : Outcome unit * Monitor :=
  match _fireNoDataFromSourceEvent s m with
  | (Fulfilled _, m') =>
      (Fulfilled tt,
       mkMonitor (_trackMutedTS m')
         (Analytics_TRACK_UNMUTED (getType (this s)) (now - _trackMutedTS m')
          :: sent m'))
  | (Rejected e, m') => (Rejected e, m')
  end.

Definition on_track_ended (now : Z) (s : State) (m : Monitor)
  : Outcome unit * Monitor :=
  match isReceivingData s with
  | Rejected e => (Rejected e, m)
  | Fulfilled true => (Fulfilled tt, m)
  | Fulfilled false => _fireNoDataFromSourceEvent s m
  end.

(** [_initNoDataFromSourceHandlers]: the handlers it hands to
    [_setHandler], in the order of the calls. *)
Definition _initNoDataFromSourceHandlers (t : JitsiLocalTrack)
  : list (TrackEvent * (Z -> State -> Monitor -> Outcome unit * Monitor)) :=
  if negb (_isNoDataFromSourceEventsEnabled t) then []
  else
    [(track_mute, on_track_mute); (track_unmute, on_track_unmute)]
    ++ (if isVideoTrack t && videoType_is VideoType.CAMERA t
        then [(track_ended, on_track_ended)]
        else []).

End NoDataFromSource.

(** The values of the NO_DATA_FROM_SOURCE events among what was sent. *)
Definition alarms (l : list Diagnostic) : list bool :=
  flat_map (fun d => match d with
                     | Emit_NO_DATA_FROM_SOURCE value => [value]
                     | _ => []
                     end) l.

(** * Effects that throw

    [startEffect] and [stopEffect] are synchronous calls, declared to return
    a stream and nothing, and everywhere else they answer as declared.
    Whether [setEffect] rolls back depends on what happens when they throw,
    so its sequence is given here once more, with effect methods that may
    throw. *)

(** What a call of an effect method does: [None], it returns; [Some error],
    it throws.  The answer may depend on the calls made so far, the call
    itself included. *)
Record Faults := mkFaults {
  startEffect_throws : EffectRef -> list Event -> option JsError;
  stopEffect_throws : EffectRef -> list Event -> option JsError
}.

(** The effect methods never throw. *)
Definition faultless : Faults :=
  mkFaults (fun _ _ => None) (fun _ _ => None).

(** A synchronous call that returns or throws. *)
Definition returned_or_threw (answer : option JsError) : M unit :=
  match answer with
  | None => ret tt
  | Some error => throw error
  end.

Module MayThrow.

Section Effects.

Variable E : Env.
Variable F : Faults.

Definition _startStreamEffect (effect : EffectRef) : M unit :=
  update (set_streamEffect (Some effect)) ;;
  s <- get ;;
  let original := stream (this s) in
  update (set_originalStream original) ;;
  call (StartEffect effect original) ;;
  s' <- get ;;
  returned_or_threw (startEffect_throws F effect (trace (world s'))) ;;
  let out := startEffect (effectObject E effect) (trace (world s')) original in
  _setStream (Some out) ;;
  update (set_track (firstTrack (world s') out)).

Definition _stopStreamEffect : M unit :=
  s <- get ;;
  match _streamEffect (this s) with
  | Some e =>
      call (StopEffect e) ;;
      s1 <- get ;;
      returned_or_threw (stopEffect_throws F e (trace (world s1))) ;;
      _setStream (_originalStream (this s)) ;;
      update (set_originalStream None) ;;
      s' <- get ;;
      update (set_track
                match stream (this s') with
                | Some r => firstTrack (world s') r
                | None => None
                end)
  | None => ret tt
  end.

Definition _switchStreamEffect (effect : option EffectRef) : M unit :=
  s <- get ;;
  when (match _streamEffect (this s) with Some _ => true | None => false end)
       (_stopStreamEffect ;; update (set_streamEffect None)) ;;
  match effect with
  | Some e => _startStreamEffect e
  | None => ret tt
  end.

Definition switchAndShow (effect : option EffectRef) : M unit :=
  _switchStreamEffect effect ;;
  s <- get ;;
  when (isVideoTrack (this s))
       (forEach (containers (this s))
          (fun cont => attachMediaStream cont (stream (this s)))).

(** [setEffect] up to its [return]. *)
Definition setEffect_call (effect : option EffectRef) (s : State)
  : Started * State :=
  let t := this s in
  match _streamEffect t, effect with
  | None, None => (Now (Fulfilled tt), s)
  | _, _ =>
      if match effect with
         | Some e => negb (isEnabled (effectObject E e) t)
         | None => false
         end
      then (Now (Rejected (Error "Incompatible effect instance!")), s)
      else if _setEffectInProgress t
      then (Now (Rejected (Error "setEffect already in progress!")), s)
      else if isMuted E s && negb (isAudioTrack t)
      then (Now (Fulfilled tt), mkState (set_streamEffect effect t) (world s))
      else
        match conference t with
        | None =>
            let (o, s') := switchAndShow effect s in
            (Now o, s')
        | Some c =>
            let (_, s') :=
              (update (set_setEffectInProgress true) ;;
               call (RemoveLocalTrackFromPc c)) s in
            (Later c, s')
        end
  end.

(** The chain [.then(...).then(...).catch(...)] on the promise of
    [conference._removeLocalTrackFromPc(this)]. *)
Definition setEffect_chain (effect : option EffectRef) (c : ConferenceRef)
  : M unit :=
  catch
    ((s <- get ;; await (_removeLocalTrackFromPc E (trace (world s)))) ;;
     (switchAndShow effect ;;
      addLocalTrackToPc E c) ;;
     update (set_setEffectInProgress false))
    (fun error =>
       update (set_setEffectInProgress false) ;;
       _switchStreamEffect None ;;
       throw error).

(** [setEffect] run until its promise settles. *)
Definition setEffect (effect : option EffectRef) : M unit :=
  fun s =>
    match setEffect_call effect s with
    | (Now o, s') => (o, s')
    | (Later c, s') => setEffect_chain effect c s'
    end.

End Effects.

End MayThrow.

(** * Sample collaborators, stores and tracks *)

Module Sample.

Definition micSettings : MediaTrackSettings.t :=
  MediaTrackSettings.mk (Some "mic-1") None (Some true) (Some 1) (Some true)
    (Some true).

(** Track 0 is a microphone track, every other track a camera track. *)
Definition someTracks (r : TrackRef) : MediaStreamTrack.t :=
  match r with
  | 0 => MediaStreamTrack.mk MediaType.AUDIO "Default - Mic A" true
           (Some ReadyState.live) (Some micSettings)
  | _ => MediaStreamTrack.mk MediaType.VIDEO "Cam" true
           (Some ReadyState.live) None
  end.

(** Stream [r] is live and carries track [r]. *)
Definition someStreams (r : StreamRef) : MediaStream.t :=
  MediaStream.mk true [r].

Definition quiet : World := mkWorld someTracks someStreams [].

(** Effect 1 refuses every track; the others accept every track, have no
    mute state of their own and hand out stream 9. *)
Definition someEffects (e : EffectRef) : IStreamEffect :=
  match e with
  | 1 => mkEffect (fun _ => false) None false (fun _ _ => 9)
  | _ => mkEffect (fun _ => true) None false (fun _ _ => 9)
  end.

(** A browser that mutes video by removing the stream, with the answers of
    RTCUtils and of the conference left open. *)
Definition env
  (obtains : list Event -> GumOptions.t -> JsError + list IStreamInfo.t)
  (removes adds : list Event -> option JsError) : Env :=
  mkEnv false true someEffects (fun _ => "{}") obtains removes adds
    (fun _ => true).

Definition cameraInfo : IStreamInfo.t :=
  IStreamInfo.mk 5 5 (Some VideoType.CAMERA).

Definition micInfo : IStreamInfo.t := IStreamInfo.mk 0 0 None.

(** Every collaborator does what it is asked. *)
Definition obliging : Env :=
  env (fun _ _ => inr [cameraInfo]) (fun _ => None) (fun _ => None).

Definition microphone : JitsiLocalTrack :=
  mkTrack MediaType.AUDIO None (Some 0) (Some 0) [] (Some 0) false
    1 "mic-1" false (ITrackConstraints.mk None None)
    (Settled (Fulfilled tt)) None false (Some "mic-1") None None false.

Definition camera : JitsiLocalTrack :=
  mkTrack MediaType.VIDEO (Some VideoType.CAMERA) (Some 1) (Some 1) [7]
    (Some 0) false 2 "cam-1" false
    (ITrackConstraints.mk (Some 720) (Some 1280))
    (Settled (Fulfilled tt)) None false (Some "cam-1") None None false.

(** The camera after a mute that removed its stream. *)
Definition mutedCamera : JitsiLocalTrack := set_stream None camera.

Definition disposedMicrophone : JitsiLocalTrack :=
  mkTrack MediaType.AUDIO None (Some 0) (Some 0) [] None true
    1 "mic-1" false (ITrackConstraints.mk None None)
    (Settled (Fulfilled tt)) None false (Some "mic-1") None None false.

(** The camera while a [setEffect] waits for the conference. *)
Definition switchingCamera : JitsiLocalTrack :=
  set_setEffectInProgress true camera.

(** The conference cannot take the track off the peer connection. *)
Definition detachFails : Env :=
  env (fun _ _ => inr [cameraInfo]) (fun _ => Some (Reason 1)) (fun _ => None).

(** The conference cannot put the track back on the peer connection. *)
Definition reattachFails : Env :=
  env (fun _ _ => inr [cameraInfo]) (fun _ => None) (fun _ => Some (Reason 2)).

(** RTCUtils hands out a microphone track whatever it is asked for. *)
Definition wrongKind : Env :=
  env (fun _ _ => inr [micInfo]) (fun _ => None) (fun _ => None).




(** The muted camera while a [setEffect] waits for the conference. *)
Definition mutedSwitchingCamera : JitsiLocalTrack :=
  set_setEffectInProgress true mutedCamera.

(** The first capture request is refused, every later one is granted. *)
Definition firstObtainFails : Env :=
  env (fun tr _ =>
         if Nat.eqb (List.length (filter is_obtain tr)) 1
         then inl (Reason 3)
         else inr [micInfo])
      (fun _ => None) (fun _ => None).

(** The store of a browser whose media stream tracks have no
    [readyState]. *)
Definition legacy : World :=
  mkWorld
    (fun r =>
       MediaStreamTrack.mk (MediaStreamTrack.kind (someTracks r))
         (MediaStreamTrack.label (someTracks r))
         (MediaStreamTrack.enabled (someTracks r)) None
         (MediaStreamTrack.getSettings (someTracks r)))
    someStreams [].

(** A store in which track 4 is a second microphone track. *)
Definition studio : World :=
  mkWorld
    (fun r =>
       match r with
       | 4 => MediaStreamTrack.mk MediaType.AUDIO "Mic B" true
                (Some ReadyState.live) (Some micSettings)
       | _ => someTracks r
       end)
    someStreams [].

Definition spareMicInfo : IStreamInfo.t := IStreamInfo.mk 4 4 None.

(** The first capture request is refused, every later one is granted with
    the second microphone. *)
Definition retryGranted : Env :=
  env (fun tr _ =>
         if Nat.eqb (List.length (filter is_obtain tr)) 1
         then inl (Reason 3)
         else inr [spareMicInfo])
      (fun _ => None) (fun _ => None).

Definition noAutoGain : IAudioConstraints.t :=
  IAudioConstraints.mk (present (Some false)) absent absent absent absent.

(** Constraints that ask for another device. *)
Definition otherDevice : IAudioConstraints.t :=
  IAudioConstraints.mk absent absent absent absent (present (Some "mic-X")).

(** Constraints in which a key is present and holds [undefined]. *)
Definition gainUndefined : IAudioConstraints.t :=
  IAudioConstraints.mk (present None) absent absent absent absent.

(** The microphone of the samples as enumerateDevices lists it. *)
Definition micDevice : MediaDeviceInfo.t :=
  MediaDeviceInfo.mk "mic-1" "audioinput" "Default - Mic A".

End Sample.

(** * More samples *)

Module Scene.

(** RTCUtils refuses every capture request. *)
Definition captureRefused : Env :=
  Sample.env (fun _ _ => inl (Reason 3)) (fun _ => None) (fun _ => None).


(** A screen share. *)
Definition screen : JitsiLocalTrack :=
  mkTrack MediaType.VIDEO (Some VideoType.DESKTOP) (Some 3) (Some 3) []
    (Some 0) false 3 "screen-1" false
    (ITrackConstraints.mk (Some 1080) (Some 1920))
    (Settled (Fulfilled tt)) None false (Some "screen-1") None None false.

(** The microphone of the samples before it joins a conference. *)
Definition loneMicrophone : JitsiLocalTrack :=
  mkTrack MediaType.AUDIO None (Some 0) (Some 0) [] None false
    1 "mic-1" false (ITrackConstraints.mk None None)
    (Settled (Fulfilled tt)) None false (Some "mic-1") None None false.

(** The same with effect 2 on it: the effect hands out stream 9. *)
Definition enhancedMicrophone : JitsiLocalTrack :=
  mkTrack MediaType.AUDIO None (Some 9) (Some 9) [] None false
    1 "mic-1" false (ITrackConstraints.mk None None)
    (Settled (Fulfilled tt)) None false (Some "mic-1") (Some 2) (Some 0)
    false.


(** The camera with effect 2 on it while a [setEffect] waits for the
    conference. *)
Definition blurredSwitchingCamera : JitsiLocalTrack :=
  mkTrack MediaType.VIDEO (Some VideoType.CAMERA) (Some 9) (Some 9) [7]
    (Some 0) false 2 "cam-1" true
    (ITrackConstraints.mk (Some 720) (Some 1280))
    (Settled (Fulfilled tt)) None false (Some "cam-1") (Some 2) (Some 1)
    false.

(** What the muted camera of the samples asks RTCUtils for when it is
    unmuted. *)
Definition cameraRequest : GumOptions.t :=
  GumOptions.mk [MediaType.VIDEO] (Some "cam-1") None []
    (Some CameraFacingMode.USER)
    (GumConstraints.mk (Some (ITrackConstraints.mk (Some 720) (Some 1280)))
       None).

(** The microphone opened as the default device. *)
Definition defaultMicrophone : JitsiLocalTrack :=
  set_realDeviceId (Some "default") Sample.microphone.

(** Another microphone, which carries the label the default device has
    without its prefix. *)
Definition micA : MediaDeviceInfo.t :=
  MediaDeviceInfo.mk "mic-2" "audioinput" "Mic A".

(** Collaborators of [dispose] that do nothing. *)
Definition idle : Outside :=
  mkOutside (fun _ => ret tt) (fun _ => ret tt) false (ret tt).

(** A native camera switch that leaves the browser's objects as they
    are. *)
Definition nativeSwitch (k : TrackRef) : option (World -> World) :=
  Some (fun w => w).

(** No media stream track has the property [muted]. *)
Definition noMutedProperty (k : TrackRef) : option bool := None.

End Scene.

(** * Properties *)

Lemma MediaType_eqb_eq (a b : MediaType.t) : MediaType.eqb a b = true <-> a = b.
Proof. destruct a, b; simpl; split; congruence. Qed.

Lemma VideoType_eqb_eq (a b : VideoType.t) : VideoType.eqb a b = true <-> a = b.
Proof. destruct a, b; simpl; split; congruence. Qed.

Lemma videoType_is_true (x : VideoType.t) (t : JitsiLocalTrack) :
  videoType_is x t = true <-> videoType t = Some x.
Proof.
  unfold videoType_is, videoType_eqb.
  destruct (videoType t) as [v|]; [rewrite VideoType_eqb_eq|]; split; congruence.
Qed.

Lemma videoType_is_false (x : VideoType.t) (t : JitsiLocalTrack) :
  videoType_is x t = false <-> videoType t <> Some x.
Proof.
  rewrite <- videoType_is_true. destruct (videoType_is x t); split; congruence.
Qed.

(** ** The guards of [_setMuted] *)

(** A transition to the mute state the track is in already, on a track that
    is not a desktop track, returns [Promise.resolve()] at once: nothing is
    read past the first guard, so neither [disposed] nor the mute policy
    matters. *)
Lemma _setMuted_same_state (E : Env) (s : State) (muted : bool) :
  isMuted E s = muted ->
  videoType (this s) <> Some VideoType.DESKTOP ->
  _setMuted E muted s = (Fulfilled tt, s).
Proof.
  intros Hm Hv. apply videoType_is_false in Hv.
  unfold _setMuted, bind, get. rewrite Hm, Hv, Bool.eqb_reflx. reflexivity.
Qed.

(** Past the first guard a disposed track rejects with TRACK_IS_DISPOSED
    before anything is assigned or called. *)
Lemma _setMuted_disposed (E : Env) (s : State) (muted : bool) :
  disposed (this s) = true ->
  Bool.eqb (isMuted E s) muted
  && negb (videoType_is VideoType.DESKTOP (this s)) = false ->
  _setMuted E muted s = (Rejected (JitsiTrackError TRACK_IS_DISPOSED), s).
Proof.
  intros Hd Hg. unfold _setMuted, bind, get. rewrite Hg, Hd. reflexivity.
Qed.

(** ** Running the model by hand *)

(** Name every field of the track and of the store of a state. *)
Ltac open_state s :=
  let ty := fresh "ty" in let vt := fresh "vt" in let st := fresh "st" in
  let tk := fresh "tk" in let cs := fresh "cs" in let cf := fresh "cf" in
  let dp := fresh "dp" in let id := fresh "id" in let dev := fresh "dev" in
  let ip := fresh "ip" in let ct := fresh "ct" in let pr := fresh "pr" in
  let fm := fresh "fm" in let en := fresh "en" in let rd := fresh "rd" in
  let ef := fresh "ef" in let os := fresh "os" in let sp := fresh "sp" in
  let hp := fresh "hp" in let ss := fresh "ss" in let tr := fresh "tr" in
  destruct s as
    [[ty vt st tk cs cf dp id dev ip ct pr fm en rd ef os sp] [hp ss tr]];
  simpl in *.

Ltac unfold_setters :=
  unfold set_videoType, set_stream, set_track, set_setEffectInProgress,
    set_prevSetMuted, set_trackEnded, set_realDeviceId, set_streamEffect,
    set_originalStream, set_stopStreamInProgress in *.

Ltac unfold_monad :=
  unfold catch, then_, bind, get, await, throw, ret, when, update, call in *.

Ltac unfold_mute :=
  unfold muteChanged, softPath, hardMute, _sendMuteStatus,
    _removeStreamFromConferenceAsMute, _addStreamToConferenceAsUnmute,
    write_enabled in *.

Ltac unfold_effects :=
  unfold _switchStreamEffect, _stopStreamEffect, _startStreamEffect,
    addLocalTrackToPc, removeLocalTrackFromPc, stopStream, stopMediaStream,
    _unregisterHandlers, _setStream in *.

(** ** The queue of mute and unmute (C1) *)

Lemma last_cons {A} (a d : A) (l : list A) : last (a :: l) d = last l a.
Proof.
  revert a d. induction l as [|b l IH]; intros a d; [reflexivity|].
  change (last (a :: b :: l) d) with (last (b :: l) d).
  rewrite (IH b d), (IH b a). reflexivity.
Qed.

Lemma _prevSetMuted_set (p : Promise) (t : JitsiLocalTrack) :
  _prevSetMuted (set_prevSetMuted p t) = p.
Proof. reflexivity. Qed.

(** [prev.then(setMuted, setMuted)] calls [_setMuted] once [prev] is
    settled, fulfilled or rejected. *)
Lemma settle_queued (E : Env) (muted : bool) (t : JitsiLocalTrack) (s : State) :
  settle E (fst (_queueSetMuted muted t)) s =
  (let (_, s0) := settle E (_prevSetMuted t) s in _setMuted E muted s0).
Proof.
  simpl. unfold then_. destruct (settle E (_prevSetMuted t) s) as [[|] ?];
    reflexivity.
Qed.

Lemma settle_submit_all (E : Env) (submissions : list bool)
  (t : JitsiLocalTrack) (s : State) :
  settle E (_prevSetMuted (submit_all submissions t)) s =
  (let (o0, s0) := settle E (_prevSetMuted t) s in
   let (os, s') := in_turn E submissions s0 in
   (last os o0, s')).
Proof.
  revert t. induction submissions as [|muted rest IH]; intros t.
  - simpl. destruct (settle E (_prevSetMuted t) s); reflexivity.
  - change (submit_all (muted :: rest) t)
      with (submit_all rest (snd (_queueSetMuted muted t))).
    rewrite IH.
    change (_prevSetMuted (snd (_queueSetMuted muted t)))
      with (fst (_queueSetMuted muted t)).
    rewrite settle_queued.
    destruct (settle E (_prevSetMuted t) s) as [o0 s0]. simpl.
    destruct (_setMuted E muted s0) as [o s1].
    destruct (in_turn E rest s1) as [os s2].
    rewrite last_cons. reflexivity.
Qed.

Lemma returned_in_turn (E : Env) (submissions : list bool)
  (t : JitsiLocalTrack) (s : State) :
  Forall2 (fun p o => fst (settle E p s) = o)
    (returned submissions t)
    (fst (in_turn E submissions (snd (settle E (_prevSetMuted t) s)))).
Proof.
  revert t. induction submissions as [|muted rest IH]; intros t.
  - constructor.
  - change (returned (muted :: rest) t)
      with (fst (_queueSetMuted muted t)
            :: returned rest (snd (_queueSetMuted muted t))).
    specialize (IH (snd (_queueSetMuted muted t))).
    change (_prevSetMuted (snd (_queueSetMuted muted t)))
      with (fst (_queueSetMuted muted t)) in IH.
    rewrite settle_queued in IH.
    pose proof (settle_queued E muted t s) as Hq.
    set (p := fst (_queueSetMuted muted t)) in *.
    destruct (settle E (_prevSetMuted t) s) as [o0 s0].
    cbn [fst snd in_turn] in *.
    destruct (_setMuted E muted s0) as [o s1]. cbn [fst snd] in *.
    destruct (in_turn E rest s1) as [os s2]. cbn [fst snd] in *.
    constructor; [rewrite Hq; reflexivity | exact IH].
Qed.

(** C1.  Submissions made through [_queueSetMuted] (so through [mute] and
    [unmute]) run one at a time in the order they were made: draining the
    queue is calling [_setMuted] for each submission in turn, each call on
    the state the one before left, whether that one was fulfilled or
    rejected; the promise handed back for a submission settles as the call
    made for that submission does. *)
Theorem C1_queue_runs_in_submission_order (E : Env) (submissions : list bool)
  (t : JitsiLocalTrack) (w : World) :
  let s := mkState (submit_all submissions t) w in
  let s0 := snd (settle E (_prevSetMuted t) s) in
  let o0 := fst (settle E (_prevSetMuted t) s) in
  let outcomes := fst (in_turn E submissions s0) in
  let s' := snd (in_turn E submissions s0) in
  drain E s =
    (last outcomes o0,
     mkState (set_prevSetMuted (Settled (last outcomes o0)) (this s')) (world s'))
  /\ Forall2 (fun p o => fst (settle E p s) = o) (returned submissions t) outcomes.
Proof.
  intros s s0 o0 outcomes s'. split.
  - unfold drain. change (this s) with (submit_all submissions t).
    rewrite settle_submit_all. subst outcomes s' o0 s0.
    destruct (settle E (_prevSetMuted t) s) as [o0 s0]. simpl.
    destruct (in_turn E submissions s0); reflexivity.
  - apply returned_in_turn.
Qed.

(** ** Mute and unmute (C2, C6) *)

(** Unfold the methods of the mute paths down to assignments and calls. *)
Ltac crunch :=
  unfold_mute; unfold_effects; unfold_monad; unfold_setters; simpl.

(** The last [.then] of [_setMuted] leaves the track as it is and releases
    no capture handle. *)
Lemma muteChanged_spec (E : Env) (muted : bool) (s : State) :
  exists s',
    muteChanged E muted s = (Fulfilled tt, s')
    /\ this s' = this s
    /\ tracks (world s') = tracks (world s)
    /\ streams (world s') = streams (world s)
    /\ releases (world s') = releases (world s).
Proof.
  open_state s. crunch. unfold releases; simpl.
  destruct cf as [c|]; simpl.
  - destruct (_setTrackMuteStatus E _); simpl;
      destruct (isVideoTrack _); simpl; eexists; repeat split; reflexivity.
  - eexists; repeat split; reflexivity.
Qed.

(** The soft path cannot fail; it keeps the kind, the video type and the
    disposed flag of the track, and releases no capture handle. *)
Lemma softPath_spec (E : Env) (muted : bool) (s : State) :
  exists s',
    softPath E muted s = (Fulfilled tt, s')
    /\ type (this s') = type (this s)
    /\ videoType (this s') = videoType (this s)
    /\ disposed (this s') = disposed (this s)
    /\ releases (world s') = releases (world s).
Proof.
  open_state s. crunch. unfold releases; simpl.
  destruct ef as [e|]; [destruct (setMuted_member _)|]; simpl;
    try destruct tk; simpl; eexists; repeat split; reflexivity.
Qed.

(** A hard mute that is fulfilled has dropped the capture handle, and kept
    the video type. *)
Lemma hardMute_spec (E : Env) (s s' : State) :
  hardMute E s = (Fulfilled tt, s') ->
  stream (this s') = None /\ videoType (this s') = videoType (this s).
Proof.
  open_state s. crunch. intros H.
  destruct cf as [c|]; simpl in H.
  - destruct (_removeLocalTrackFromPc E _); simpl in H; [discriminate|].
    destruct ef; simpl in H; inversion H; subst; simpl; auto.
  - destruct ef; simpl in H; inversion H; subst; simpl; auto.
Qed.

(** Where the policy is to toggle rather than to remove the stream,
    [_setMuted] releases no capture handle, whatever it does, and on a track
    that is not disposed it is fulfilled. *)
Lemma _setMuted_soft (E : Env) (muted : bool) (s : State) :
  isAudioTrack (this s) || negb (mutesByStreamRemove E (this s)) = true ->
  releases (world (snd (_setMuted E muted s))) = releases (world s)
  /\ (disposed (this s) = false -> fst (_setMuted E muted s) = Fulfilled tt).
Proof.
  intros Hp. unfold _setMuted. unfold bind at 1 3, get at 1 2.
  destruct (_ && _); [split; reflexivity|].
  destruct (disposed (this s)); [split; [reflexivity|discriminate]|].
  rewrite Hp. unfold bind.
  destruct (softPath_spec E muted s) as (s1 & -> & _ & _ & _ & Hr1).
  destruct (muteChanged_spec E muted s1) as (s2 & -> & _ & _ & _ & Hr2).
  simpl. split; congruence.
Qed.

(** After a mute that was fulfilled on a track that is not disposed and is
    not a desktop track, a second mute is fulfilled and releases no capture
    handle. *)
Lemma second_mute (E : Env) (s s1 : State) :
  disposed (this s) = false ->
  videoType (this s) <> Some VideoType.DESKTOP ->
  _setMuted E true s = (Fulfilled tt, s1) ->
  fst (_setMuted E true s1) = Fulfilled tt
  /\ releases (world (snd (_setMuted E true s1))) = releases (world s1).
Proof.
  intros Hd Hv H. pose proof Hv as Hv'. apply videoType_is_false in Hv'.
  destruct (isMuted E s) eqn:Hm.
  - rewrite _setMuted_same_state in H by assumption.
    inversion H; subst. rewrite _setMuted_same_state by assumption.
    split; reflexivity.
  - unfold _setMuted at 1 in H. unfold bind at 1, get at 1 in H.
    rewrite Hm, Hv', Hd in H. simpl in H.
    destruct (isAudioTrack (this s) || negb (mutesByStreamRemove E (this s)))
      eqn:Hp; unfold bind in H.
    + destruct (softPath_spec E true s) as (s2 & Hs & Hty & Hvt & Hdp & _).
      rewrite Hs in H.
      destruct (muteChanged_spec E true s2) as (s3 & Hc & Ht & _).
      rewrite Hc in H. inversion H; subst s3.
      destruct (_setMuted_soft E true s1) as [Hr Hf].
      * unfold isAudioTrack, getType, mutesByStreamRemove, videoType_is in *.
        rewrite Ht, Hty, Hvt. exact Hp.
      * split; [apply Hf; congruence | exact Hr].
    + destruct (hardMute E s) as [[[]|] s2] eqn:Hh; [|discriminate].
      apply hardMute_spec in Hh. destruct Hh as [Hst Hvt].
      destruct (muteChanged_spec E true s2) as (s3 & Hc & Ht & _).
      rewrite Hc in H. inversion H; subst s3.
      rewrite _setMuted_same_state; [split; reflexivity| |].
      * unfold isMuted. rewrite Ht, Hst. reflexivity.
      * rewrite Ht, Hvt. exact Hv.
Qed.

(** C6.  On a track that is not disposed and is not a desktop track, a
    transition to the mute state the track is in already is fulfilled at
    once and changes neither the track nor the store nor the trace; so a
    mute that follows a fulfilled mute is fulfilled and releases no capture
    handle. *)
Theorem C6_transition_to_current_state_is_noop (E : Env) (s : State)
  (muted : bool) :
  disposed (this s) = false ->
  videoType (this s) <> Some VideoType.DESKTOP ->
  (isMuted E s = muted -> _setMuted E muted s = (Fulfilled tt, s))
  /\ (forall s1,
        _setMuted E true s = (Fulfilled tt, s1) ->
        fst (_setMuted E true s1) = Fulfilled tt
        /\ releases (world (snd (_setMuted E true s1))) = releases (world s1)).
Proof.
  intros Hd Hv. split.
  - intros Hm. now apply _setMuted_same_state.
  - intros s1 H. now apply second_mute with (s := s).
Qed.

Lemma C6_witness :
  let s := mkState Sample.camera Sample.quiet in
  let s1 := snd (_setMuted Sample.obliging true s) in
  _setMuted Sample.obliging true s1 = (Fulfilled tt, s1)
  /\ fst (_setMuted Sample.obliging true s1) = Fulfilled tt
  /\ releases (world (snd (_setMuted Sample.obliging true s1))) = 1.
Proof.
  intros s s1.
  destruct (C6_transition_to_current_state_is_noop Sample.obliging s1 true)
    as [Hnoop _]; [vm_compute; reflexivity | discriminate |].
  destruct (C6_transition_to_current_state_is_noop Sample.obliging s true)
    as [_ Htwice]; [vm_compute; reflexivity | discriminate |].
  split; [apply Hnoop; vm_compute; reflexivity|].
  destruct (Htwice s1) as [Hf Hr]; [vm_compute; reflexivity|].
  split; [exact Hf | rewrite Hr; vm_compute; reflexivity].
Defined.

(** The queue goes on after a rejection: on a disposed microphone that is
    not muted, [mute] is rejected and the [unmute] queued behind it is
    fulfilled all the same. *)
Example queue_advances_after_rejection :
  let s := mkState Sample.disposedMicrophone Sample.quiet in
  in_turn Sample.obliging [true; false] s
  = ([Rejected (JitsiTrackError TRACK_IS_DISPOSED); Fulfilled tt], s).
Proof. reflexivity. Qed.

(** C2, as stated, fails: a disposed track is asked for the mute state it
    is in already, and the promise is fulfilled. *)
Lemma C2_counterexample :
  let s := mkState Sample.disposedMicrophone Sample.quiet in
  disposed (this s) = true
  /\ isMuted Sample.obliging s = false
  /\ _setMuted Sample.obliging false s = (Fulfilled tt, s)
  /\ _setMuted Sample.obliging false s
     <> (Rejected (JitsiTrackError TRACK_IS_DISPOSED), s).
Proof.
  intros s. repeat split; try (vm_compute; reflexivity). discriminate.
Qed.

(** C2, amended.  On a disposed track [_setMuted] changes nothing: neither
    the track nor the store nor the trace.  It rejects with
    TRACK_IS_DISPOSED whenever the target differs from the mute state the
    track is in, and whenever the track is a desktop track; a transition of
    a track that is not a desktop track to the mute state it is in already
    is fulfilled, as on a track that is not disposed. *)
Theorem C2_disposed_track_transitions (E : Env) (s : State) (muted : bool) :
  disposed (this s) = true ->
  _setMuted E muted s =
  (if Bool.eqb (isMuted E s) muted
      && negb (videoType_is VideoType.DESKTOP (this s))
   then Fulfilled tt
   else Rejected (JitsiTrackError TRACK_IS_DISPOSED),
   s).
Proof.
  intros Hd. unfold _setMuted, bind, get.
  destruct (_ && _); [reflexivity|]. rewrite Hd. reflexivity.
Qed.

Lemma C2_witness :
  let s := mkState Sample.disposedMicrophone Sample.quiet in
  _setMuted Sample.obliging true s
  = (Rejected (JitsiTrackError TRACK_IS_DISPOSED), s).
Proof.
  intros s.
  exact (C2_disposed_track_transitions Sample.obliging s true eq_refl).
Defined.

(** ** The guards of [setEffect] (C5, C10) *)

(** C10.  With no effect on the track, [setEffect(undefined)] is fulfilled
    at once and changes nothing; no other guard is read, so a switch that is
    in progress does not make it reject. *)
Theorem C10_setEffect_undefined_without_effect (E : Env) (s : State) :
  _streamEffect (this s) = None ->
  setEffect E None s = (Fulfilled tt, s).
Proof.
  intros H. unfold setEffect, setEffect_call. rewrite H. reflexivity.
Qed.

Lemma C10_witness :
  let s := mkState Sample.switchingCamera Sample.quiet in
  _setEffectInProgress (this s) = true
  /\ setEffect Sample.obliging None s = (Fulfilled tt, s).
Proof.
  intros s. split; [reflexivity|].
  exact (C10_setEffect_undefined_without_effect Sample.obliging s eq_refl).
Defined.

(** Attaching a stream to the containers only adds to the trace. *)
Lemma forEach_attach (l : list ContainerRef) (v : option StreamRef) (s : State) :
  forEach l (fun cont => attachMediaStream cont v) s =
  (Fulfilled tt,
   mkState (this s)
     (mkWorld (tracks (world s)) (streams (world s))
        (rev (map (fun cont => AttachMediaStream cont v) l)
         ++ trace (world s))%list)).
Proof.
  revert s. induction l as [|c l IH]; intros s; simpl.
  - destruct s as [t w]; destruct w; reflexivity.
  - unfold bind, attachMediaStream, call at 1. simpl. rewrite IH. simpl.
    rewrite <- app_assoc. reflexivity.
Qed.

(** Switching cannot fail; it ends with the wanted effect in the slot and
    keeps the flag of the single flight and the conference. *)
Lemma switchAndShow_spec (E : Env) (effect : option EffectRef) (s : State) :
  exists s',
    switchAndShow E effect s = (Fulfilled tt, s')
    /\ _streamEffect (this s') = effect
    /\ _setEffectInProgress (this s') = _setEffectInProgress (this s)
    /\ conference (this s') = conference (this s)
    /\ preEffectStream (this s') = preEffectStream (this s).
Proof.
  open_state s. unfold switchAndShow, preEffectStream.
  unfold_effects; unfold_monad; unfold_setters; simpl.
  destruct ef, effect; simpl; destruct (isVideoTrack _); simpl;
    rewrite ?forEach_attach; simpl; eexists; repeat split; reflexivity.
Qed.

(** Switching to no effect, the roll back of [setEffect]. *)
Lemma rollback_spec (E : Env) (s : State) :
  exists s',
    _switchStreamEffect E None s = (Fulfilled tt, s')
    /\ _streamEffect (this s') = None
    /\ stream (this s') = preEffectStream (this s)
    /\ track (this s')
       = match _streamEffect (this s) with
         | Some _ =>
             match _originalStream (this s) with
             | Some r => firstTrack (world s) r
             | None => None
             end
         | None => track (this s)
         end
    /\ _setEffectInProgress (this s') = _setEffectInProgress (this s)
    /\ conference (this s') = conference (this s)
    /\ trace (world s')
       = (stopping (_streamEffect (this s)) ++ trace (world s))%list.
Proof.
  open_state s. unfold preEffectStream.
  unfold_effects; unfold_monad; unfold_setters; simpl.
  destruct ef; simpl; eexists; repeat split; reflexivity.
Qed.

(** When [setEffect] returns a promise that waits for the conference, the
    track has a conference, the flag of the single flight is up and the call
    to the conference is the newest event; nothing else has changed. *)
Lemma setEffect_call_later (E : Env) (effect : option EffectRef)
  (c : ConferenceRef) (s s1 : State) :
  setEffect_call E effect s = (Later c, s1) ->
  conference (this s) = Some c
  /\ _setEffectInProgress (this s) = false
  /\ s1 = mkState (set_setEffectInProgress true (this s))
            (mkWorld (tracks (world s)) (streams (world s))
               (RemoveLocalTrackFromPc c :: trace (world s))).
Proof.
  unfold setEffect_call. intros H.
  assert (G :
    (if match effect with
        | Some e => negb (isEnabled (effectObject E e) (this s))
        | None => false
        end
     then (Now (Rejected (Error "Incompatible effect instance!")), s)
     else if _setEffectInProgress (this s)
     then (Now (Rejected (Error "setEffect already in progress!")), s)
     else if isMuted E s && negb (isAudioTrack (this s))
     then (Now (Fulfilled tt),
           mkState (set_streamEffect effect (this s)) (world s))
     else
       match conference (this s) with
       | None => let (o, s') := switchAndShow E effect s in (Now o, s')
       | Some c =>
           let (_, s') :=
             (update (set_setEffectInProgress true) ;;
              call (RemoveLocalTrackFromPc c)) s in
           (Later c, s')
       end) = (Later c, s1)).
  { destruct (_streamEffect (this s)), effect; try exact H; discriminate. }
  clear H.
  destruct (match effect with Some _ => _ | None => _ end); [discriminate|].
  destruct (_setEffectInProgress (this s)); [discriminate|].
  destruct (_ && _); [discriminate|].
  destruct (conference (this s)) as [c'|].
  - unfold_monad. simpl in G. inversion G; subst. auto.
  - destruct (switchAndShow E effect s). discriminate.
Qed.

(** The chain behind [setEffect], by what the conference answers. *)
Lemma setEffect_chain_spec (E : Env) (effect : option EffectRef)
  (c : ConferenceRef) (s1 : State) :
  let detach := _removeLocalTrackFromPc E (trace (world s1)) in
  let switched := snd (switchAndShow E effect s1) in
  let reattach :=
    _addLocalTrackToPc E (AddLocalTrackToPc c :: trace (world switched)) in
  let result := setEffect_chain E effect c s1 in
  match detach, reattach with
  | None, None =>
      fst result = Fulfilled tt
      /\ _streamEffect (this (snd result)) = effect
      /\ _setEffectInProgress (this (snd result)) = false
  | Some error, _ =>
      fst result = Rejected error
      /\ rolledBack (this s1) (this (snd result))
      /\ trace (world (snd result))
         = (stopping (_streamEffect (this s1)) ++ trace (world s1))%list
  | None, Some error =>
      fst result = Rejected error
      /\ rolledBack (this s1) (this (snd result))
      /\ trace (world (snd result))
         = (stopping effect
            ++ AddLocalTrackToPc c :: trace (world switched))%list
  end.
Proof.
  intros detach switched reattach result.
  subst result detach reattach switched.
  destruct (setEffect_chain E effect c s1) as [o s2] eqn:H.
  cbn [fst snd].
  unfold setEffect_chain, catch, addLocalTrackToPc in H.
  unfold bind at 1 2 3, get at 1, await at 1 in H.
  destruct (_removeLocalTrackFromPc E (trace (world s1))) as [error|].
  - unfold throw at 1, bind at 1 2, update at 1, throw in H.
    destruct (rollback_spec E
                (mkState (set_setEffectInProgress false (this s1)) (world s1)))
      as (s3 & Hr & He & Hs & _ & Hf & Hc & Ht).
    cbn [this world] in H. rewrite Hr in H. inversion H; subst o s3.
    split; [reflexivity|]. unfold rolledBack.
    simpl in Hs, Hf, Hc, Ht. repeat split; assumption.
  - unfold ret at 1, bind at 1 in H.
    destruct (switchAndShow_spec E effect s1) as (s3 & Hsw & He & Hf & Hc & Hp).
    rewrite Hsw in H. cbn [snd]. rewrite Hsw. cbn [snd].
    unfold bind at 1 2, call at 1, get at 1, await at 1 in H.
    cbn [this world trace] in H.
    destruct (_addLocalTrackToPc E (AddLocalTrackToPc c :: trace (world s3)))
      as [error|].
    + unfold throw at 1, bind at 1 2, update at 1, throw in H.
      cbn [this world] in H.
      match type of H with
      | context [_switchStreamEffect E None ?x] =>
          destruct (rollback_spec E x)
            as (s4 & Hr & He4 & Hs4 & _ & Hf4 & Hc4 & Ht4)
      end.
      rewrite Hr in H. inversion H; subst o s4.
      split; [reflexivity|]. unfold rolledBack.
      simpl in Hs4, Hf4, Hc4, Ht4. rewrite <- Hp, <- Hc, <- He.
      repeat split; assumption.
    + unfold ret, update in H. inversion H; subst o s2.
      simpl. repeat split; assumption.
Qed.

(** C5, as stated, fails: while a switch is in progress, a call with an
    effect that refuses the track rejects with the error of the first guard,
    not with the error of the single flight. *)
Lemma C5_counterexample :
  let s := mkState Sample.switchingCamera Sample.quiet in
  _setEffectInProgress (this s) = true
  /\ setEffect Sample.obliging (Some 1) s
     = (Rejected (Error "Incompatible effect instance!"), s)
  /\ setEffect Sample.obliging (Some 1) s
     <> (Rejected (Error "setEffect already in progress!"), s).
Proof.
  intros s. repeat split; try (vm_compute; reflexivity). discriminate.
Qed.

(** C5, amended.  [setEffect(e)] with an effect that refuses the track
    rejects with 'Incompatible effect instance!' and changes nothing.  While
    a switch is in progress, [setEffect(e)] with an effect that accepts the
    track rejects with 'setEffect already in progress!' and changes nothing;
    so when [setEffect(e1)] waits for the conference, a second call with such
    an effect is rejected, leaves the state as the first call left it, and
    the first switch, once fulfilled, has [e1] in the effect slot. *)
Theorem C5_setEffect_rejections (E : Env) (s : State) (e : EffectRef) :
  (isEnabled (effectObject E e) (this s) = false ->
   setEffect E (Some e) s
   = (Rejected (Error "Incompatible effect instance!"), s))
  /\ (isEnabled (effectObject E e) (this s) = true ->
      _setEffectInProgress (this s) = true ->
      setEffect E (Some e) s
      = (Rejected (Error "setEffect already in progress!"), s))
  /\ (forall e1 c s0,
        setEffect_call E (Some e1) s0 = (Later c, s) ->
        isEnabled (effectObject E e) (this s) = true ->
        setEffect E (Some e) s
        = (Rejected (Error "setEffect already in progress!"), s)
        /\ (fst (setEffect_chain E (Some e1) c s) = Fulfilled tt ->
            _streamEffect (this (snd (setEffect_chain E (Some e1) c s)))
            = Some e1)).
Proof.
  assert (Hprogress :
    isEnabled (effectObject E e) (this s) = true ->
    _setEffectInProgress (this s) = true ->
    setEffect E (Some e) s
    = (Rejected (Error "setEffect already in progress!"), s)).
  { intros He Hp. unfold setEffect, setEffect_call. rewrite He, Hp. simpl.
    destruct (_streamEffect (this s)); reflexivity. }
  split; [|split].
  - intros He. unfold setEffect, setEffect_call. rewrite He. simpl.
    destruct (_streamEffect (this s)); reflexivity.
  - exact Hprogress.
  - intros e1 c s0 Hcall He. split.
    + apply Hprogress; [exact He|].
      apply setEffect_call_later in Hcall.
      destruct Hcall as (_ & _ & ->). reflexivity.
    + intros Hf. pose proof (setEffect_chain_spec E (Some e1) c s) as Hs.
      cbv zeta in Hs.
      destruct (_removeLocalTrackFromPc E (trace (world s))).
      * destruct Hs as [Hs _]. congruence.
      * destruct (_addLocalTrackToPc E _).
        -- destruct Hs as [Hs _]. congruence.
        -- now destruct Hs as (_ & Hs & _).
Qed.

Lemma C5_witness :
  let s0 := mkState Sample.camera Sample.quiet in
  let s := snd (setEffect_call Sample.obliging (Some 0) s0) in
  setEffect Sample.obliging (Some 1) s
  = (Rejected (Error "Incompatible effect instance!"), s)
  /\ setEffect Sample.obliging (Some 2) s
     = (Rejected (Error "setEffect already in progress!"), s)
  /\ _streamEffect (this (snd (setEffect_chain Sample.obliging (Some 0) 0 s)))
     = Some 0.
Proof.
  intros s0 s.
  destruct (C5_setEffect_rejections Sample.obliging s 1) as (Hincompatible & _ & _).
  destruct (C5_setEffect_rejections Sample.obliging s 2) as (_ & Hprogress & Hflight).
  split; [apply Hincompatible; reflexivity|].
  split; [apply Hprogress; reflexivity|].
  destruct (Hflight 0 0 s0) as [_ Hfirst]; [reflexivity | reflexivity |].
  apply Hfirst. reflexivity.
Defined.

(** ** The roll back of [setEffect] (C4) *)

(** With effect methods that never throw, the sequence is the one of
    [setEffect]. *)
Lemma MayThrow_faultless (E : Env) (effect : option EffectRef) (s : State) :
  MayThrow.setEffect E faultless effect s = setEffect E effect s.
Proof.
  reflexivity.
Qed.








(** ** The hard unmute path (C7, C9) *)

Lemma find_nothing {A} (f : A -> bool) (l : list A) :
  (forall x, In x l -> f x = false) -> find f l = None.
Proof.
  induction l as [|a l IH]; intros H; [reflexivity|]. simpl.
  rewrite (H a (or_introl eq_refl)). apply IH. intros x Hx. apply H. now right.
Qed.

(** Building the options of the capture request changes nothing. *)
Lemma streamOptions_state (s : State) :
  snd (streamOptions s) = s.
Proof.
  open_state s. unfold streamOptions, getCameraFacingMode, videoType_is.
  unfold_monad. simpl.
  destruct vt as [[]|]; simpl; try reflexivity.
  destruct (isVideoTrack _); simpl; try reflexivity.
  destruct tk; simpl; try reflexivity.
  destruct (MediaStreamTrack.getSettings _) as [[? [?|] ? ? ? ?]|];
    try reflexivity; destruct fm; reflexivity.
Qed.

(** [_setMuted(false)] on the hard unmute path is [hardUnmute] and then the
    notifications. *)
Lemma _setMuted_hardUnmute (E : Env) (s : State) :
  onHardUnmutePath E s ->
  _setMuted E false s = (hardUnmute E ;; muteChanged E false) s.
Proof.
  intros (Hg & Hd & Ha & Hp). unfold _setMuted. unfold bind at 1, get at 1.
  rewrite Hg, Hd, Ha, Hp. reflexivity.
Qed.

(** C7.  On the hard unmute path, when the capture request is made and
    answered with streams none of which has a track of the kind of this
    track, [_setMuted] rejects with TRACK_NO_STREAM_FOUND and the track is
    left as it was: no field is assigned, nothing in the store is written,
    and the capture request is the only call made, so no effect is started
    and the conference is not asked to take the track back. *)
Theorem C7_no_stream_of_the_kind (E : Env) (s : State)
  (options : GumOptions.t) (streamsInfo : list IStreamInfo.t) :
  onHardUnmutePath E s ->
  fst (streamOptions s) = Fulfilled options ->
  obtainAudioAndVideoPermissions E
    (ObtainAudioAndVideoPermissions options :: trace (world s)) options
  = inr streamsInfo ->
  (forall info, In info streamsInfo -> kindMatches s info = false) ->
  _setMuted E false s
  = (Rejected (JitsiTrackError TRACK_NO_STREAM_FOUND),
     called (ObtainAudioAndVideoPermissions options) s).
Proof.
  intros Hpath Hopt Hobtain Hkind.
  rewrite _setMuted_hardUnmute by assumption.
  unfold hardUnmute. unfold bind at 1 2.
  pose proof (streamOptions_state s) as Hs.
  destruct (streamOptions s) as [o s0]. simpl in Hopt, Hs. subst o s0.
  unfold bind at 1, obtain, bind at 1, call at 1, bind at 1, get at 1.
  cbn [this world trace tracks streams].
  rewrite Hobtain. unfold ret at 1, bind at 1, get at 1.
  cbn [this world trace tracks streams].
  pose proof (find_nothing (kindMatches s) _ Hkind) as Hfind.
  unfold kindMatches in Hfind. rewrite Hfind. reflexivity.
Qed.

Lemma C7_witness :
  let s := mkState Sample.mutedCamera Sample.quiet in
  exists options,
    _setMuted Sample.wrongKind false s
    = (Rejected (JitsiTrackError TRACK_NO_STREAM_FOUND),
       called (ObtainAudioAndVideoPermissions options) s).
Proof.
  intros s. eexists.
  apply (C7_no_stream_of_the_kind Sample.wrongKind s _ [Sample.micInfo]).
  - repeat split.
  - reflexivity.
  - reflexivity.
  - intros info [<-|[]]. reflexivity.
Defined.

(** Putting the stream back on the conference after an unmute leaves the
    track as it is and only adds to the trace. *)
Lemma _addStreamToConferenceAsUnmute_spec (E : Env) (s : State) :
  exists o later,
    _addStreamToConferenceAsUnmute E s
    = (o, mkState (this s)
            (mkWorld (tracks (world s)) (streams (world s))
               (later ++ trace (world s))%list)).
Proof.
  open_state s. crunch. destruct cf as [c|]; simpl.
  - destruct (_addLocalTrackToPc E _); simpl.
    + exists (Rejected (ErrorOf j)), [AddLocalTrackToPc c]. reflexivity.
    + exists (Fulfilled tt), [AddLocalTrackToPc c]. reflexivity.
  - exists (Fulfilled tt), []. reflexivity.
Qed.

(** The last [.then] of [_setMuted] only adds to the trace. *)
Lemma muteChanged_trace (E : Env) (muted : bool) (s : State) :
  exists later,
    muteChanged E muted s
    = (Fulfilled tt,
       mkState (this s)
         (mkWorld (tracks (world s)) (streams (world s))
            (later ++ trace (world s))%list)).
Proof.
  open_state s. crunch. destruct cf as [c|]; simpl.
  - destruct (_setTrackMuteStatus E _); simpl; destruct (isVideoTrack _); simpl.
    + exists [Emit_TRACK_MUTE_CHANGED; SendBridgeVideoTypeMessage c;
              SendPresence c; SetTrackMuteStatus c muted]. reflexivity.
    + exists [Emit_TRACK_MUTE_CHANGED; SendPresence c;
              SetTrackMuteStatus c muted]. reflexivity.
    + exists [Emit_TRACK_MUTE_CHANGED; SendBridgeVideoTypeMessage c;
              SetTrackMuteStatus c muted]. reflexivity.
    + exists [Emit_TRACK_MUTE_CHANGED; SetTrackMuteStatus c muted]. reflexivity.
  - exists [Emit_TRACK_MUTE_CHANGED]. reflexivity.
Qed.

(** An unmute of a track with a recorded effect, once the capture request
    is answered with a stream of the right kind: the stream is adopted, then
    the recorded effect is started on it. *)
Lemma hardUnmute_starts_recorded_effect (E : Env) (s : State) (e : EffectRef)
  (options : GumOptions.t) (streamsInfo : list IStreamInfo.t)
  (info : IStreamInfo.t) :
  _streamEffect (this s) = Some e ->
  fst (streamOptions s) = Fulfilled options ->
  obtainAudioAndVideoPermissions E
    (ObtainAudioAndVideoPermissions options :: trace (world s)) options
  = inr streamsInfo ->
  find (kindMatches s) streamsInfo = Some info ->
  let adopted := Some (IStreamInfo.stream info) in
  let started :=
    StartEffect e adopted
    :: ObtainAudioAndVideoPermissions options :: trace (world s) in
  let unmuted := snd ((hardUnmute E ;; muteChanged E false) s) in
  _streamEffect (this unmuted) = Some e
  /\ _originalStream (this unmuted) = adopted
  /\ stream (this unmuted)
     = Some (startEffect (effectObject E e) started adopted)
  /\ exists later, trace (world unmuted) = (later ++ started)%list.
Proof.
  intros Heff Hopt Hobtain Hfind adopted started unmuted.
  subst unmuted adopted started.
  destruct ((hardUnmute E ;; muteChanged E false) s) as [o' s'] eqn:H.
  cbn [snd].
  pose proof (streamOptions_state s) as Hs.
  destruct (streamOptions s) as [o s0] eqn:Hso. simpl in Hopt, Hs. subst o s0.
  unfold hardUnmute in H. unfold bind at 1 2 3 in H. rewrite Hso in H.
  unfold obtain, bind at 1 2, call at 1, get at 1 in H.
  cbn [this world trace tracks streams] in H.
  rewrite Hobtain in H. unfold ret at 1, bind at 1, get at 1 in H.
  cbn [this world trace tracks streams] in H.
  unfold kindMatches in Hfind. rewrite Hfind, Heff in H.
  clear Hso Hobtain Hfind.
  open_state s. subst ef.
  unfold_effects; unfold_monad; unfold_setters; simpl in H.
  destruct (negb _); simpl in H; rewrite forEach_attach in H; simpl in H;
    match type of H with
    | context [_addStreamToConferenceAsUnmute E ?x] =>
        destruct (_addStreamToConferenceAsUnmute_spec E x) as (o & l1 & Ha)
    end;
    rewrite Ha in H; clear Ha;
    (destruct o as [[]|err];
     [ match type of H with
       | context [muteChanged E false ?x] =>
           destruct (muteChanged_trace E false x) as (l2 & Hm)
       end; rewrite Hm in H; clear Hm
     | ]);
    inversion H; subst o' s'; clear H;
    simpl; repeat split; try reflexivity;
    rewrite ?app_assoc; eexists; reflexivity.
Qed.

(** C9, as stated, fails: while a switch is in progress, [setEffect(e)] on
    a video track muted by stream removal rejects and records nothing. *)
Lemma C9_counterexample :
  let s := mkState Sample.mutedSwitchingCamera Sample.quiet in
  isVideoTrack (this s) = true
  /\ stream (this s) = None
  /\ isEnabled (effectObject Sample.obliging 0) (this s) = true
  /\ setEffect Sample.obliging (Some 0) s
     = (Rejected (Error "setEffect already in progress!"), s)
  /\ _streamEffect (this (snd (setEffect Sample.obliging (Some 0) s))) = None.
Proof.
  intros s. repeat split; reflexivity.
Qed.

(** C9, amended.  On a video track muted by stream removal (its capture
    handle is gone) and with no switch in progress, [setEffect(e)] with an
    effect that accepts the track is fulfilled and only writes [e] in the
    effect slot: the store and the trace are as before, so the effect is not
    started and the conference is not called.  At the next unmute of that
    track, once the capture request is answered with a stream of the kind of
    the track, that stream is adopted and the recorded effect is then started
    on it. *)
Theorem C9_effect_recorded_while_hard_muted (E : Env) (s : State)
  (e : EffectRef) :
  isVideoTrack (this s) = true ->
  stream (this s) = None ->
  mutesByStreamRemove E (this s) = true ->
  isEnabled (effectObject E e) (this s) = true ->
  _setEffectInProgress (this s) = false ->
  let recorded := mkState (set_streamEffect (Some e) (this s)) (world s) in
  setEffect E (Some e) s = (Fulfilled tt, recorded)
  /\ forall options streamsInfo info,
       disposed (this s) = false ->
       fst (streamOptions recorded) = Fulfilled options ->
       obtainAudioAndVideoPermissions E
         (ObtainAudioAndVideoPermissions options :: trace (world s)) options
       = inr streamsInfo ->
       find (kindMatches recorded) streamsInfo = Some info ->
       let adopted := Some (IStreamInfo.stream info) in
       let started :=
         StartEffect e adopted
         :: ObtainAudioAndVideoPermissions options :: trace (world s) in
       let unmuted := snd (_setMuted E false recorded) in
       _streamEffect (this unmuted) = Some e
       /\ _originalStream (this unmuted) = adopted
       /\ stream (this unmuted)
          = Some (startEffect (effectObject E e) started adopted)
       /\ exists later, trace (world unmuted) = (later ++ started)%list.
Proof.
  intros Hv Hs Hp He Hf recorded. split.
  - unfold setEffect, setEffect_call. rewrite He, Hf.
    assert (Hm : isMuted E s = true) by (unfold isMuted; now rewrite Hs).
    assert (Ha : isAudioTrack (this s) = false).
    { unfold isAudioTrack, isVideoTrack in *.
      destruct (getType (this s)); simpl in *; congruence. }
    rewrite Hm, Ha. simpl. destruct (_streamEffect (this s)); reflexivity.
  - intros options streamsInfo info Hd Hopt Hobtain Hfind.
    assert (Hpath : onHardUnmutePath E recorded).
    { unfold onHardUnmutePath, isMuted. subst recorded.
      open_state s. unfold_setters. simpl. subst st.
      unfold isAudioTrack, isVideoTrack, getType in *. simpl in *.
      repeat split; try assumption.
      destruct ty; simpl in *; congruence. }
    rewrite _setMuted_hardUnmute by assumption.
    apply (hardUnmute_starts_recorded_effect E recorded e options streamsInfo
             info); try assumption.
    reflexivity.
Qed.

Lemma C9_witness :
  let s := mkState Sample.mutedCamera Sample.quiet in
  let recorded := mkState (set_streamEffect (Some 0) (this s)) (world s) in
  let unmuted := snd (_setMuted Sample.obliging false recorded) in
  setEffect Sample.obliging (Some 0) s = (Fulfilled tt, recorded)
  /\ _streamEffect (this unmuted) = Some 0
  /\ _originalStream (this unmuted) = Some 5
  /\ stream (this unmuted) = Some 9.
Proof.
  intros s recorded unmuted.
  destruct (C9_effect_recorded_while_hard_muted Sample.obliging s 0)
    as [Hrecorded Hunmute]; try (vm_compute; reflexivity).
  split; [exact Hrecorded|].
  destruct (Hunmute
              (GumOptions.mk [MediaType.VIDEO] (Some "cam-1") None [0]
                 (Some CameraFacingMode.USER)
                 (GumConstraints.mk
                    (Some (ITrackConstraints.mk (Some 720) (Some 1280))) None))
              [Sample.cameraInfo] Sample.cameraInfo)
    as (H1 & H2 & H3 & _); try (vm_compute; reflexivity).
  repeat split; assumption.
Defined.

(** ** applyConstraints (C3) *)

(** C3, as stated, fails on the input the spec gives for it,
    [applyConstraints({ deviceId: 'mic-X' })]: the first capture request is
    refused, the retry with the settings read before the change is granted,
    and the promise of [applyConstraints] is fulfilled, not rejected; and
    the retry does not ask for the original device: the settings it passes
    as constraints hold the original id, but its [micDeviceId] is the id the
    constraints carried. *)
Lemma C3_counterexample :
  let s := mkState Sample.microphone Sample.quiet in
  let wanted := spread Sample.micSettings Sample.otherDevice in
  let first := constraintsRequest MediaType.AUDIO (Some "mic-X") wanted in
  let retry :=
    constraintsRequest MediaType.AUDIO (Some "mic-X")
      (MediaTrackConstraints.ofSettings Sample.micSettings) in
  let result := applyConstraints Sample.firstObtainFails Sample.otherDevice s in
  obtains (trace (world (snd result)))
  = [ObtainAudioAndVideoPermissions retry; ObtainAudioAndVideoPermissions first]
  /\ obtainAudioAndVideoPermissions Sample.firstObtainFails
       [ObtainAudioAndVideoPermissions first; StopMediaStream (Some 0);
        RemoveLocalTrackFromPc 0] first
     = inl (Reason 3)
  /\ fst result = Fulfilled tt
  /\ fst result <> Rejected (JitsiTrackError CONSTRAINT_FAILED)
  /\ GumOptions.micDeviceId retry = Some "mic-X"
  /\ MediaTrackSettings.deviceId Sample.micSettings = Some "mic-1".
Proof.
  vm_compute. repeat split; try reflexivity. discriminate.
Qed.

(** C3, amended.  On an audio track with a conference, with no effect or
    with an audio mix effect, once the track is off the peer connection:
    when the capture request with the new constraints fails (it rejects, or
    resolves with no stream) and the retry is granted, [applyConstraints]
    makes exactly these two requests.  The first passes the settings read
    before the change with every own key of the constraints copied over
    them; the retry passes those settings as they were read, but both ask
    for the same device, the [deviceId] of the merged object: the original
    device id when the constraints have no key [deviceId], and what that key
    holds when they have one.  [applyConstraints] adopts the stream of the
    retry, keeps the effect slot and the conference, and asks the
    conference last to put the track back.  Its promise does not reject
    with CONSTRAINT_FAILED: it settles as the promise of the conference
    does, fulfilled when the track is back on the peer connection. *)
Theorem C3_applyConstraints_retries_and_resolves (E : Env) (s : State)
  (constraints : IAudioConstraints.t) (c : ConferenceRef)
  (initialSettings : MediaTrackSettings.t)
  (d : IStreamInfo.t) (rest : list IStreamInfo.t) :
  isAudioTrack (this s) = true ->
  (_streamEffect (this s) = None \/ hasAudioMixEffect E (this s) = true) ->
  conference (this s) = Some c ->
  _removeLocalTrackFromPc E (RemoveLocalTrackFromPc c :: trace (world s))
  = None ->
  let s1 := tornDown E c s in
  settingsOf s1 = Some initialSettings ->
  let wanted := spread initialSettings constraints in
  let deviceId := read (MediaTrackConstraints.deviceId wanted) in
  let first := constraintsRequest MediaType.AUDIO deviceId wanted in
  let retry :=
    constraintsRequest MediaType.AUDIO deviceId
      (MediaTrackConstraints.ofSettings initialSettings) in
  failed (obtainAudioAndVideoPermissions E
            (ObtainAudioAndVideoPermissions first :: trace (world s1)) first) ->
  obtainAudioAndVideoPermissions E
    (ObtainAudioAndVideoPermissions retry
     :: ObtainAudioAndVideoPermissions first :: trace (world s1)) retry
  = inr (d :: rest) ->
  let result := applyConstraints E constraints s in
  let after := snd result in
  obtains (trace (world after))
  = ObtainAudioAndVideoPermissions retry
    :: ObtainAudioAndVideoPermissions first :: obtains (trace (world s))
  /\ preEffectStream (this after) = Some (IStreamInfo.stream d)
  /\ _streamEffect (this after) = _streamEffect (this s)
  /\ conference (this after) = Some c
  /\ hd_error (trace (world after)) = Some (AddLocalTrackToPc c)
  /\ fst result
     = match _addLocalTrackToPc E (trace (world after)) with
       | None => Fulfilled tt
       | Some error => Rejected error
       end
  /\ deviceId
     = match IAudioConstraints.deviceId constraints with
       | absent => MediaTrackSettings.deviceId initialSettings
       | present v => v
       end.
Proof.
  intros Haudio Heff Hconf Hdetach s1 Hsettings wanted deviceId first retry
    Hfirst Hretry result after.
  subst after result.
  destruct (applyConstraints E constraints s) as [o s'] eqn:H. cbn [fst snd].
  subst s1 retry first deviceId wanted.
  unfold isAudioTrack, getType in Haudio. apply MediaType_eqb_eq in Haudio.
  open_state s. subst ty cf.
  unfold applyConstraints, tornDown, settingsOf, hasAudioMixEffect, obtain,
    preEffectStream, obtains, constraintsRequest, isAudioTrack, getType in *.
  unfold_effects; unfold_monad; unfold_setters. simpl in *.
  destruct Heff as [->|Hmix].
  - simpl in H. rewrite Hdetach in *. simpl in *.
    destruct tk as [r|]; [|discriminate]. simpl in *.
    rewrite Hsettings in H. simpl in H.
    match type of Hfirst with
    | failed ?a => destruct a as [error|[|x l]] eqn:Ha
    end; try contradiction; simpl in H; rewrite Hretry in H; simpl in H.
    all: destruct (_addLocalTrackToPc E _) eqn:Hadd; simpl in H.
    all: inversion H; subst o s'; simpl; rewrite ?Hadd.
    all: repeat split; try reflexivity.
    all: destruct (IAudioConstraints.deviceId constraints); try reflexivity;
      destruct (MediaTrackSettings.deviceId initialSettings); reflexivity.
  - destruct ef as [e|]; [|discriminate]. simpl in Hmix.
    simpl in H. rewrite Hmix in *. simpl in *. rewrite Hdetach in *. simpl in *.
    destruct (match os with Some r => _ | None => None end) as [r|];
      [|discriminate]. simpl in *.
    rewrite Hsettings in H. simpl in H.
    match type of Hfirst with
    | failed ?a => destruct a as [error|[|x l]] eqn:Ha
    end; try contradiction; simpl in H; rewrite Hretry in H; simpl in H.
    all: destruct (_addLocalTrackToPc E _) eqn:Hadd; simpl in H.
    all: inversion H; subst o s'; simpl; rewrite ?Hadd.
    all: repeat split; try reflexivity.
    all: destruct (IAudioConstraints.deviceId constraints); try reflexivity;
      destruct (MediaTrackSettings.deviceId initialSettings); reflexivity.
Qed.

Lemma C3_witness :
  let s := mkState Sample.microphone Sample.studio in
  let result := applyConstraints Sample.retryGranted Sample.noAutoGain s in
  fst result = Fulfilled tt
  /\ stream (this s) = Some 0
  /\ preEffectStream (this (snd result)) = Some 4
  /\ conference (this (snd result)) = Some 0
  /\ hd_error (trace (world (snd result))) = Some (AddLocalTrackToPc 0).
Proof.
  intros s result.
  destruct (C3_applyConstraints_retries_and_resolves Sample.retryGranted
              s Sample.noAutoGain 0 Sample.micSettings Sample.spareMicInfo [])
    as (_ & Hstream & _ & Hconf & Hlast & Hsettles & _).
  - vm_compute; reflexivity.
  - left; reflexivity.
  - reflexivity.
  - reflexivity.
  - vm_compute; reflexivity.
  - vm_compute; exact I.
  - vm_compute; reflexivity.
  - subst result. split; [rewrite Hsettles; reflexivity|].
    split; [reflexivity|].
    split; [exact Hstream|].
    split; [exact Hconf | exact Hlast].
Defined.

(** ** The device list (C8) *)

(** Decide the condition of the listener, then compare the flags. *)
Ltac finish_notification :=
  match goal with
  | |- context [if ?b then _ else _] =>
      let Hb := fresh "Hb" in
      destruct b eqn:Hb; simpl; rewrite ?Hb;
      rewrite ?orb_true_r, ?orb_false_r; reflexivity
  end.

(** One notification, by cases: without a media stream track the listener
    throws before it assigns anything; with one, the resolved id is
    reconciled and the flag is raised under the two conditions of the
    listener, never lowered. *)
Lemma _onDeviceListWillChange_spec (devices : list MediaDeviceInfo.t)
  (s : State) :
  let s' := snd (_onDeviceListWillChange devices s) in
  match getTrack (this s) with
  | None => s' = s
  | Some r =>
      _trackEnded (this s')
      = _trackEnded (this s)
        || (gone_without_readyState devices
              (MediaStreamTrack.readyState (tracks (world s) r))
              (_realDeviceId (this s'))
            || no_longer_resolved (_realDeviceId (this s))
                 (_realDeviceId (this s')))
  end.
Proof.
  destruct (_onDeviceListWillChange devices s) as [o s'] eqn:H. cbn [snd].
  open_state s.
  unfold _onDeviceListWillChange, _setRealDeviceIdFromDeviceList, getTrack in *.
  unfold_monad; unfold_setters; simpl in *.
  destruct tk as [r|]; simpl in H; [|now inversion H].
  set (kind := (MediaType.to_string (MediaStreamTrack.kind (hp r)) ++ "input"))
    in H.
  destruct (find _ devices) as [d|]; simpl in H.
  - apply (f_equal snd) in H. simpl in H. subst s'. finish_notification.
  - destruct rd as [id'|]; simpl in H.
    + destruct (String.eqb id' "default"); simpl in H.
      * destruct (find _ devices) as [d|]; simpl in H;
          apply (f_equal snd) in H; simpl in H; subst s';
          finish_notification.
      * apply (f_equal snd) in H. simpl in H. subst s'. finish_notification.
    + apply (f_equal snd) in H. simpl in H. subst s'. finish_notification.
Qed.

(** A notification never lowers the flag. *)
Lemma _onDeviceListWillChange_keeps_ended (devices : list MediaDeviceInfo.t)
  (s : State) :
  _trackEnded (this s) = true ->
  _trackEnded (this (snd (_onDeviceListWillChange devices s))) = true.
Proof.
  intros H. pose proof (_onDeviceListWillChange_spec devices s) as Hs.
  cbv zeta in Hs. destruct (getTrack (this s)).
  - rewrite Hs, H. reflexivity.
  - rewrite Hs. exact H.
Qed.

Lemma notified_keeps_ended
  (notifications : list (World * list MediaDeviceInfo.t)) (t : JitsiLocalTrack) :
  _trackEnded t = true -> _trackEnded (notified notifications t) = true.
Proof.
  revert t. induction notifications as [|[w devices] rest IH]; intros t H.
  - exact H.
  - simpl. apply IH.
    exact (_onDeviceListWillChange_keeps_ended devices (mkState t w) H).
Qed.

(** What the first condition of the listener asks for cannot be: a resolved
    id that is defined after the reconciliation is the id of a listed
    device.  The flag is raised by the second condition only. *)
Remark resolved_device_is_listed (devices : list MediaDeviceInfo.t)
  (s : State) (r : TrackRef) (readyState : option ReadyState.t) :
  getTrack (this s) = Some r ->
  gone_without_readyState devices readyState
    (_realDeviceId (this (snd (_setRealDeviceIdFromDeviceList devices s))))
  = false.
Proof.
  assert (Hin : forall f (d : MediaDeviceInfo.t),
             find f devices = Some d ->
             gone_without_readyState devices readyState
               (Some (MediaDeviceInfo.deviceId d)) = false).
  { intros f d Hf. apply find_some in Hf. destruct Hf as [Hd _].
    unfold gone_without_readyState. destruct readyState; [reflexivity|].
    apply negb_false_iff, existsb_exists. exists d. split; [exact Hd|].
    apply String.eqb_refl. }
  assert (Hnone : gone_without_readyState devices readyState None = false).
  { unfold gone_without_readyState. destruct readyState; reflexivity. }
  open_state s. unfold _setRealDeviceIdFromDeviceList, getTrack.
  unfold_monad; unfold_setters; simpl. intros ->. simpl.
  destruct rd as [id'|]; simpl;
    [destruct (String.eqb id' "default"); simpl|];
    repeat match goal with
           | |- context [find ?f devices] =>
               let Hf := fresh "Hf" in
               destruct (find f devices) eqn:Hf; simpl
           end;
    try exact Hnone; eauto.
Qed.

(** The listener leaves the resolved id as the reconciliation set it. *)
Lemma listener_resolves_as_reconciliation (devices : list MediaDeviceInfo.t)
  (s : State) (r : TrackRef) :
  getTrack (this s) = Some r ->
  _realDeviceId (this (snd (_onDeviceListWillChange devices s)))
  = _realDeviceId (this (snd (_setRealDeviceIdFromDeviceList devices s))).
Proof.
  destruct (_onDeviceListWillChange devices s) as [o s'] eqn:H. cbn [snd].
  open_state s.
  unfold _onDeviceListWillChange, _setRealDeviceIdFromDeviceList, getTrack in *.
  unfold_monad; unfold_setters; simpl in *. intros ->. simpl in *.
  repeat match goal with
         | |- context [find ?f devices] => destruct (find f devices); simpl in *
         | |- context [match rd with _ => _ end] => destruct rd; simpl in *
         | |- context [String.eqb ?a "default"] =>
             destruct (String.eqb a "default"); simpl in *
         end;
    apply (f_equal snd) in H; simpl in H; subst s';
    match goal with
    | |- context [if ?b then _ else _] => destruct b
    end; reflexivity.
Qed.

(** C8, as stated, fails in its second condition.  A microphone opened as
    the default device, whose media stream track has no [readyState], is
    notified of a list in which the device it was resolved to ('default') is
    no longer listed: the listener resolves it to the device that carries
    its label and does not raise the flag. *)
Lemma C8_counterexample :
  let s := mkState Scene.defaultMicrophone Sample.legacy in
  let devices := [Scene.micA] in
  let s' := snd (_onDeviceListWillChange devices s) in
  MediaStreamTrack.readyState (tracks (world s) 0) = None
  /\ _realDeviceId (this s) = Some "default"
  /\ existsb (fun d => String.eqb (MediaDeviceInfo.deviceId d) "default")
       devices = false
  /\ _realDeviceId (this s') = Some "mic-2"
  /\ _trackEnded (this s') = false.
Proof.
  vm_compute. repeat split; reflexivity.
Qed.

(** C8, amended.  At every notification of a changed device list, on a
    track that has a media stream track, the flag [_trackEnded] becomes what
    it was, or true when the resolved id went from defined to undefined in
    this notification; nothing else raises it.  The other condition of the
    listener - no [readyState] and the resolved id not the id of a listed
    device - never holds, because the id is resolved again from that very
    list first: a track whose resolved device has left the list but that is
    resolved to another listed device is not marked as ended.  A raised
    flag stays raised through every later notification, whatever the lists
    and the stores of their time - also when the device is listed again.
    (Without a media stream track the listener throws before it assigns
    anything.) *)
Theorem C8_ended_is_raised_and_never_lowered
  (devices : list MediaDeviceInfo.t) (s : State) :
  let s' := snd (_onDeviceListWillChange devices s) in
  match getTrack (this s) with
  | None => s' = s
  | Some r =>
      _trackEnded (this s')
      = _trackEnded (this s)
        || no_longer_resolved (_realDeviceId (this s))
             (_realDeviceId (this s'))
      /\ gone_without_readyState devices
           (MediaStreamTrack.readyState (tracks (world s) r))
           (_realDeviceId (this s'))
         = false
  end
  /\ forall notifications,
       _trackEnded (this s') = true ->
       _trackEnded (notified notifications (this s')) = true.
Proof.
  intros s'. split.
  - pose proof (_onDeviceListWillChange_spec devices s) as Hflag.
    cbv zeta in Hflag. fold s' in Hflag.
    destruct (getTrack (this s)) as [r|] eqn:Hr; [|exact Hflag].
    assert (Hdead : gone_without_readyState devices
                      (MediaStreamTrack.readyState (tracks (world s) r))
                      (_realDeviceId (this s')) = false).
    { unfold s'. rewrite (listener_resolves_as_reconciliation devices s r Hr).
      exact (resolved_device_is_listed devices s r _ Hr). }
    split; [|exact Hdead].
    rewrite Hflag, Hdead. reflexivity.
  - intros notifications. apply notified_keeps_ended.
Qed.

Lemma C8_witness :
  let s := mkState Sample.microphone Sample.quiet in
  let listed := snd (_onDeviceListWillChange [Sample.micDevice] s) in
  let unplugged := snd (_onDeviceListWillChange [] listed) in
  _realDeviceId (this listed) = Some "mic-1"
  /\ _trackEnded (this listed) = false
  /\ _trackEnded (this unplugged) = true
  /\ _trackEnded
       (notified [(Sample.quiet, [Sample.micDevice]); (Sample.quiet, [])]
          (this unplugged)) = true.
Proof.
  intros s listed unplugged.
  destruct (C8_ended_is_raised_and_never_lowered [Sample.micDevice] s)
    as [Hlisted _].
  destruct (C8_ended_is_raised_and_never_lowered [] listed)
    as [Hunplugged Hsticks].
  change (getTrack (this s)) with (Some 0) in Hlisted.
  change (getTrack (this listed)) with (Some 0) in Hunplugged.
  cbv iota beta in Hlisted, Hunplugged.
  destruct Hlisted as [Hlisted _]. destruct Hunplugged as [Hunplugged _].
  split; [vm_compute; reflexivity|].
  split; [unfold listed; rewrite Hlisted; vm_compute; reflexivity|].
  assert (Hended : _trackEnded (this unplugged) = true).
  { unfold unplugged. rewrite Hunplugged. vm_compute; reflexivity. }
  split; [exact Hended|].
  apply Hsticks. exact Hended.
Defined.


(** With the flag raised, [isEnded()] answers true wherever it answers. *)
Lemma isEnded_of_flag (E : Env) (s : State) (r : TrackRef) :
  _trackEnded (this s) = true ->
  getTrack (this s) = Some r ->
  isEnded E s = (Fulfilled true, s).
Proof.
  intros Hflag Htrack. unfold isEnded. unfold_monad.
  rewrite Hflag, Htrack. destruct (_ && _); [reflexivity|].
  now rewrite orb_true_r.
Qed.

(** * More properties of the class *)

(** ** What the mute paths leave alone *)

Lemma filter_attach (p : Event -> bool) (l : list ContainerRef)
  (v : option StreamRef) :
  (forall cont, p (AttachMediaStream cont v) = false) ->
  filter p (rev (map (fun cont => AttachMediaStream cont v) l)) = [].
Proof.
  intros Hp. induction l as [|c l IH]; [reflexivity|].
  simpl. rewrite filter_app, IH. simpl. now rewrite Hp.
Qed.

(** The soft path keeps the whole track record; it writes the store or
    calls the effect, and neither emits nor releases nor calls the
    conference. *)
Lemma softPath_frame (E : Env) (muted : bool) (s : State) :
  exists later,
    fst (softPath E muted s) = Fulfilled tt
    /\ this (snd (softPath E muted s)) = this s
    /\ streams (world (snd (softPath E muted s))) = streams (world s)
    /\ trace (world (snd (softPath E muted s)))
       = (later ++ trace (world s))%list
    /\ filter is_emit later = []
    /\ filter is_release later = []
    /\ filter is_transport later = [].
Proof.
  open_state s. crunch.
  destruct ef as [e|]; [destruct (setMuted_member _)|]; simpl;
    try destruct tk; simpl;
    first [ exists [EffectSetMuted e muted]; repeat split; reflexivity
          | exists []; repeat split; reflexivity ].
Qed.

(** The last [.then] of [_setMuted] emits TRACK_MUTE_CHANGED once, as its
    last call, and neither releases nor calls the conference for the peer
    connection. *)
Lemma muteChanged_frame (E : Env) (muted : bool) (s : State) :
  exists later,
    muteChanged E muted s
    = (Fulfilled tt,
       mkState (this s)
         (mkWorld (tracks (world s)) (streams (world s))
            (Emit_TRACK_MUTE_CHANGED :: later ++ trace (world s))%list))
    /\ filter is_emit later = []
    /\ filter is_release later = []
    /\ filter is_transport later = [].
Proof.
  open_state s. crunch. destruct cf as [c|]; simpl.
  - destruct (_setTrackMuteStatus E _); simpl; destruct (isVideoTrack _); simpl.
    + exists [SendBridgeVideoTypeMessage c; SendPresence c;
              SetTrackMuteStatus c muted]. repeat split; reflexivity.
    + exists [SendPresence c; SetTrackMuteStatus c muted].
      repeat split; reflexivity.
    + exists [SendBridgeVideoTypeMessage c; SetTrackMuteStatus c muted].
      repeat split; reflexivity.
    + exists [SetTrackMuteStatus c muted]. repeat split; reflexivity.
  - exists []. repeat split; reflexivity.
Qed.

(** The hard mute path, by what the conference answers. *)
Lemma hardMute_cases (E : Env) (s : State) :
  let detached :=
    match conference (this s) with
    | Some c => [RemoveLocalTrackFromPc c]
    | None => []
    end in
  let refused :=
    match conference (this s) with
    | Some c =>
        _removeLocalTrackFromPc E (RemoveLocalTrackFromPc c :: trace (world s))
    | None => None
    end in
  match refused with
  | Some error =>
      hardMute E s
      = (Rejected (ErrorOf error),
         mkState (this s)
           (mkWorld (tracks (world s)) (streams (world s))
              (detached ++ trace (world s))%list))
  | None =>
      fst (hardMute E s) = Fulfilled tt
      /\ stream (this (snd (hardMute E s))) = None
      /\ _stopStreamInProgress (this (snd (hardMute E s))) = false
      /\ keptByMute (this s) (this (snd (hardMute E s)))
      /\ videoType (this (snd (hardMute E s))) = videoType (this s)
      /\ tracks (world (snd (hardMute E s))) = tracks (world s)
      /\ streams (world (snd (hardMute E s))) = streams (world s)
      /\ trace (world (snd (hardMute E s)))
         = (StopMediaStream (preEffectStream (this s))
            :: UnregisterHandlers
            :: stopping (_streamEffect (this s))
            ++ detached ++ trace (world s))%list
  end.
Proof.
  open_state s. unfold preEffectStream, keptByMute, stopping. crunch.
  destruct cf as [c|]; simpl.
  - destruct (_removeLocalTrackFromPc E _); simpl; [reflexivity|].
    destruct ef; simpl; repeat split; reflexivity.
  - destruct ef; simpl; repeat split; reflexivity.
Qed.

Lemma trace_shape_both {A} (a b : A) (l rest : list A) :
  a :: (l ++ b :: rest) = ((a :: l ++ [b]) ++ rest)%list.
Proof. simpl. now rewrite <- app_assoc. Qed.

Lemma trace_shape_last {A} (b : A) (l rest : list A) :
  (l ++ b :: rest = (l ++ [b]) ++ rest)%list.
Proof. now rewrite <- app_assoc. Qed.

(** The hard unmute path, by what RTCUtils and the conference answer. *)
Lemma hardUnmute_cases (E : Env) (s : State) :
  match fst (streamOptions s) with
  | Rejected error => hardUnmute E s = (Rejected error, s)
  | Fulfilled options =>
      let asked := ObtainAudioAndVideoPermissions options in
      match obtainAudioAndVideoPermissions E (asked :: trace (world s))
              options with
      | inl error => hardUnmute E s = (Rejected error, called asked s)
      | inr streamsInfo =>
          match find (kindMatches s) streamsInfo with
          | None =>
              hardUnmute E s
              = (Rejected (JitsiTrackError TRACK_NO_STREAM_FOUND),
                 called asked s)
          | Some info =>
              let s' := snd (hardUnmute E s) in
              exists later,
                trace (world s') = (later ++ asked :: trace (world s))%list
                /\ filter is_emit later = []
                /\ filter is_release later = []
                /\ keptByMute (this s) (this s')
                /\ preEffectStream (this s') = Some (IStreamInfo.stream info)
                /\ tracks (world s') = tracks (world s)
                /\ streams (world s') = streams (world s)
                /\ match conference (this s) with
                   | None =>
                       fst (hardUnmute E s) = Fulfilled tt
                       /\ filter is_transport later = []
                   | Some c =>
                       hd_error later = Some (AddLocalTrackToPc c)
                       /\ fst (hardUnmute E s)
                          = match _addLocalTrackToPc E (trace (world s')) with
                            | None => Fulfilled tt
                            | Some error => Rejected (ErrorOf error)
                            end
                   end
          end
      end
  end.
Proof.
  destruct (hardUnmute E s) as [o' s'] eqn:H. cbn [fst snd].
  pose proof (streamOptions_state s) as Hs.
  destruct (streamOptions s) as [o s0] eqn:Hso. cbn [fst snd] in *. subst s0.
  unfold hardUnmute in H. unfold bind at 1 in H. rewrite Hso in H.
  destruct o as [options|error]; [|symmetry; exact H].
  unfold bind at 1 in H.
  unfold obtain, bind at 1 2, call at 1, get at 1 in H.
  cbn [this world trace tracks streams] in H. cbv zeta.
  destruct (obtainAudioAndVideoPermissions E _ options) as [error|streamsInfo];
    [symmetry; exact H|].
  unfold ret at 1, bind at 1, get at 1 in H.
  cbn [this world trace tracks streams] in H.
  unfold kindMatches.
  destruct (find _ streamsInfo) as [info|]; [|symmetry; exact H].
  clear Hso.
  open_state s. unfold keptByMute, preEffectStream.
  unfold_effects; unfold_monad; unfold_setters; simpl in H.
  assert (Hatt : forall p l v,
             (forall cont, p (AttachMediaStream cont v) = false) ->
             filter p (rev (map (fun cont => AttachMediaStream cont v) l))
             = []) by (intros; now apply filter_attach).
  destruct (negb _); destruct ef as [e|]; simpl in H;
    rewrite forEach_attach in H; simpl in H;
    unfold _addStreamToConferenceAsUnmute in H;
    unfold_effects; unfold_monad; simpl in H;
    (destruct cf as [c|]; simpl in H;
     [ destruct (_addLocalTrackToPc E _) eqn:Hadd; simpl in H | ]);
    inversion H; subst o' s'; clear H; simpl;
    eexists;
    (split;
     [ first [ apply trace_shape_both | apply app_comm_cons
             | apply trace_shape_last | reflexivity ] |]);
    simpl; rewrite ?filter_app, ?Hatt by reflexivity; simpl;
    rewrite ?Hadd; repeat split; try reflexivity.
Qed.

Lemma keptByMute_refl (t : JitsiLocalTrack) : keptByMute t t.
Proof. unfold keptByMute. repeat split; reflexivity. Qed.

(** Everything [_setMuted] does to a state, path by path: the fields it
    keeps, the store of streams, and what it adds to the trace. *)
Lemma _setMuted_summary (E : Env) (muted : bool) (s : State) :
  let s' := snd (_setMuted E muted s) in
  let o := fst (_setMuted E muted s) in
  let hard :=
    pastFirstGuard E muted s && negb (disposed (this s))
    && negb (isAudioTrack (this s) || negb (mutesByStreamRemove E (this s))) in
  exists later,
    trace (world s') = (later ++ trace (world s))%list
    /\ keptByMute (this s) (this s')
    /\ streams (world s') = streams (world s)
    /\ List.length (filter is_emit later)
       = (if pastFirstGuard E muted s
          then match o with Fulfilled _ => 1 | Rejected _ => 0 end
          else 0)
    /\ List.length (filter is_release later)
       = (if hard && muted
          then match o with Fulfilled _ => 1 | Rejected _ => 0 end
          else 0).
Proof.
  intros s' o hard. subst s' o hard. unfold pastFirstGuard.
  destruct (_setMuted E muted s) as [o s'] eqn:H. cbn [fst snd].
  unfold _setMuted in H. unfold bind at 1, get at 1 in H.
  destruct (Bool.eqb (isMuted E s) muted && _) eqn:Hg; simpl.
  { inversion H; subst. exists []. repeat split; reflexivity. }
  destruct (disposed (this s)) eqn:Hd; simpl.
  { inversion H; subst. exists []. repeat split; reflexivity. }
  destruct (isAudioTrack (this s) || negb (mutesByStreamRemove E (this s)))
    eqn:Hp; simpl; unfold bind in H.
  - destruct (softPath_frame E muted s)
      as (l1 & Ho & Ht & Hss & Htr & He & Hr & _).
    destruct (softPath E muted s) as [o1 s1]. cbn [fst snd] in *. subst o1.
    destruct (muteChanged_frame E muted s1) as (l2 & Hc & He2 & Hr2 & _).
    rewrite Hc in H. inversion H; subst o s'; clear H Hc.
    cbn [fst snd this world trace streams].
    exists (Emit_TRACK_MUTE_CHANGED :: l2 ++ l1)%list.
    rewrite Htr, Ht, Hss. simpl. rewrite app_assoc, !filter_app, He, He2, Hr, Hr2.
    repeat split; reflexivity.
  - destruct muted.
    + pose proof (hardMute_cases E s) as Hm. cbv zeta in Hm.
      destruct (match conference (this s) with Some _ => _ | None => None end).
      * rewrite Hm in H. inversion H; subst o s'; clear H.
        cbn [fst snd this world trace streams].
        eexists. split; [reflexivity|]. split; [apply keptByMute_refl|].
        destruct (conference (this s)); repeat split; reflexivity.
      * destruct Hm as (Ho & _ & _ & Hk & _ & _ & Hss & Htr).
        destruct (hardMute E s) as [o1 s1]. cbn [fst snd] in *. subst o1.
        destruct (muteChanged_frame E true s1) as (l2 & Hc & He2 & Hr2 & _).
        rewrite Hc in H. inversion H; subst o s'; clear H Hc.
        cbn [fst snd this world trace streams].
        exists (Emit_TRACK_MUTE_CHANGED :: l2
                ++ StopMediaStream (preEffectStream (this s))
                   :: UnregisterHandlers
                   :: stopping (_streamEffect (this s))
                   ++ match conference (this s) with
                      | Some c => [RemoveLocalTrackFromPc c]
                      | None => []
                      end)%list.
        rewrite Htr. split.
        { simpl. rewrite <- !app_assoc. simpl. rewrite <- !app_assoc.
          reflexivity. }
        split; [exact Hk|]. split; [exact Hss|].
        simpl. rewrite !filter_app, He2, Hr2. simpl. rewrite !filter_app.
        destruct (_streamEffect (this s)), (conference (this s)); split;
          reflexivity.
    + rewrite ?andb_false_r.
      pose proof (hardUnmute_cases E s) as Hu.
      destruct (fst (streamOptions s)) as [options|error].
      2:{ rewrite Hu in H. inversion H; subst o s'.
          exists []. repeat split; reflexivity. }
      cbv zeta in Hu.
      destruct (obtainAudioAndVideoPermissions E _ options) as [error|infos].
      { rewrite Hu in H. inversion H; subst o s'.
        exists [ObtainAudioAndVideoPermissions options].
        repeat split; reflexivity. }
      destruct (find (kindMatches s) infos) as [info|].
      2:{ rewrite Hu in H. inversion H; subst o s'.
          exists [ObtainAudioAndVideoPermissions options].
          repeat split; reflexivity. }
      destruct Hu as (l1 & Htr & He & Hr & Hk & _ & _ & Hss & _).
      destruct (hardUnmute E s) as [[[]|error] s1]; cbn [fst snd] in *.
      * destruct (muteChanged_frame E false s1) as (l2 & Hc & He2 & Hr2 & _).
        rewrite Hc in H. inversion H; subst o s'; clear H Hc.
        cbn [fst snd this world trace streams].
        exists (Emit_TRACK_MUTE_CHANGED :: l2 ++ l1
                ++ [ObtainAudioAndVideoPermissions options])%list.
        rewrite Htr. split.
        { simpl. rewrite <- !app_assoc. reflexivity. }
        split; [exact Hk|]. split; [exact Hss|].
        simpl. rewrite !filter_app, He, He2, Hr, Hr2. split; reflexivity.
      * inversion H; subst o s'; clear H.
        exists (l1 ++ [ObtainAudioAndVideoPermissions options])%list.
        rewrite Htr. split; [now rewrite <- app_assoc|].
        split; [exact Hk|]. split; [exact Hss|].
        rewrite !filter_app, He, Hr. split; reflexivity.
Qed.

(** X1.  Whatever its outcome, [_setMuted] leaves the fields it does not own
    as they were: the kind, the containers, the conference, [disposed],
    the device id and the resolved device id, [_setEffectInProgress],
    [_prevSetMuted], [_trackEnded] and the effect slot; it writes no stream
    object, and it only adds to the trace. *)
Theorem setMuted_keeps_what_it_does_not_own (E : Env) (muted : bool)
  (s : State) :
  let s' := snd (_setMuted E muted s) in
  keptByMute (this s) (this s')
  /\ streams (world s') = streams (world s)
  /\ exists later, trace (world s') = (later ++ trace (world s))%list.
Proof.
  destruct (_setMuted_summary E muted s) as (later & Ht & Hk & Hs & _).
  cbv zeta. split; [exact Hk|]. split; [exact Hs|]. now exists later.
Qed.

Lemma count_app (p : Event -> bool) (later tr : list Event) :
  List.length (filter p (later ++ tr))
  = List.length (filter p later) + List.length (filter p tr).
Proof. now rewrite filter_app, length_app. Qed.

(** X2.  TRACK_MUTE_CHANGED is emitted exactly once by a transition that got
    past the first guard and was fulfilled, and not at all by a transition
    that was a no-op or was rejected. *)
Theorem setMuted_emits_once_when_it_ran (E : Env) (muted : bool) (s : State) :
  emits (world (snd (_setMuted E muted s)))
  = emits (world s)
    + (if pastFirstGuard E muted s
       then match fst (_setMuted E muted s) with
            | Fulfilled _ => 1
            | Rejected _ => 0
            end
       else 0).
Proof.
  destruct (_setMuted_summary E muted s) as (later & Ht & _ & _ & He & _).
  cbv zeta in *. unfold emits. rewrite Ht, count_app, He. apply Nat.add_comm.
Qed.

(** X3.  A capture handle is released only by a mute that takes the path of
    stream removal and is fulfilled, and then exactly once: an unmute, a
    mute under the toggling policy, a no-op and a rejected transition
    release nothing. *)
Theorem setMuted_releases_only_on_hard_mute (E : Env) (muted : bool)
  (s : State) :
  releases (world (snd (_setMuted E muted s)))
  = releases (world s)
    + (if pastFirstGuard E muted s && negb (disposed (this s))
          && negb (isAudioTrack (this s)
                   || negb (mutesByStreamRemove E (this s)))
          && muted
       then match fst (_setMuted E muted s) with
            | Fulfilled _ => 1
            | Rejected _ => 0
            end
       else 0).
Proof.
  destruct (_setMuted_summary E muted s) as (later & Ht & _ & _ & _ & Hr).
  cbv zeta in *. unfold releases. rewrite Ht, count_app, Hr. apply Nat.add_comm.
Qed.

(** On a hard path [_setMuted] is the path and then the notifications. *)
Lemma _setMuted_hard (E : Env) (muted : bool) (s : State) :
  onHardPath E muted s ->
  _setMuted E muted s
  = ((if muted then hardMute E else hardUnmute E) ;; muteChanged E muted) s.
Proof.
  intros (Hg & Hd & Ha & Hp). unfold pastFirstGuard in Hg.
  apply negb_true_iff in Hg.
  unfold _setMuted. unfold bind at 1, get at 1. rewrite Hg, Hd, Ha, Hp.
  reflexivity.
Qed.

(** X4.  A hard mute whose conference refuses to take the track off the peer
    connection rejects with that error wrapped in an Error; the track is
    left as it was, with its capture handle and its effect, nothing is
    released and no notification is sent: the refused call is the only
    thing on the trace. *)
Theorem hard_mute_refused_by_conference (E : Env) (s : State)
  (c : ConferenceRef) (error : JsError) :
  onHardPath E true s ->
  conference (this s) = Some c ->
  _removeLocalTrackFromPc E (RemoveLocalTrackFromPc c :: trace (world s))
  = Some error ->
  _setMuted E true s
  = (Rejected (ErrorOf error), called (RemoveLocalTrackFromPc c) s).
Proof.
  intros Hpath Hc Hr. rewrite _setMuted_hard by assumption. unfold bind.
  pose proof (hardMute_cases E s) as Hm. cbv zeta in Hm.
  rewrite Hc, Hr in Hm. rewrite Hm. reflexivity.
Qed.

(** X5.  A hard mute the conference does not refuse is fulfilled and leaves
    the track without capture handle, so muted, with its effect still in
    the slot.  The calls come in this order: the track is taken off the
    peer connection, the effect (if any) is stopped, the handlers are
    unregistered, then the capture handle below the effect is released;
    what follows are the notifications, which neither release nor touch the
    peer connection. *)
Theorem hard_mute_detaches_then_releases (E : Env) (s : State) :
  onHardPath E true s ->
  match conference (this s) with
  | Some c =>
      _removeLocalTrackFromPc E (RemoveLocalTrackFromPc c :: trace (world s))
  | None => None
  end = None ->
  let s' := snd (_setMuted E true s) in
  fst (_setMuted E true s) = Fulfilled tt
  /\ stream (this s') = None
  /\ isMuted E s' = true
  /\ _streamEffect (this s') = _streamEffect (this s)
  /\ exists later,
       trace (world s')
       = (later
          ++ StopMediaStream (preEffectStream (this s))
             :: UnregisterHandlers
             :: stopping (_streamEffect (this s))
             ++ match conference (this s) with
                | Some c => [RemoveLocalTrackFromPc c]
                | None => []
                end
             ++ trace (world s))%list
       /\ filter is_release later = []
       /\ filter is_transport later = [].
Proof.
  intros Hpath Hr. cbv zeta. rewrite _setMuted_hard by assumption.
  unfold bind.
  pose proof (hardMute_cases E s) as Hm. cbv zeta in Hm. rewrite Hr in Hm.
  destruct Hm as (Ho & Hst & _ & Hk & _ & _ & _ & Htr).
  destruct (hardMute E s) as [o1 s1]. cbn [fst snd] in *. subst o1.
  destruct (muteChanged_frame E true s1) as (l2 & Hc & He2 & Hr2 & Ht2).
  rewrite Hc. cbn [fst snd this world trace].
  split; [reflexivity|]. split; [exact Hst|].
  split; [unfold isMuted; cbn [this]; now rewrite Hst|].
  split; [apply Hk|].
  exists (Emit_TRACK_MUTE_CHANGED :: l2). rewrite Htr.
  split; [reflexivity|]. simpl. now rewrite Hr2, Ht2.
Qed.

(** X6.  A hard unmute whose capture request is refused rejects with the
    very error of RTCUtils; the track is left as it was (still without the
    new handle), and the request is the only call made. *)
Theorem hard_unmute_capture_refused (E : Env) (s : State)
  (options : GumOptions.t) (error : JsError) :
  onHardPath E false s ->
  fst (streamOptions s) = Fulfilled options ->
  obtainAudioAndVideoPermissions E
    (ObtainAudioAndVideoPermissions options :: trace (world s)) options
  = inl error ->
  _setMuted E false s
  = (Rejected error, called (ObtainAudioAndVideoPermissions options) s).
Proof.
  intros Hpath Hopt Hobtain. rewrite _setMuted_hard by assumption.
  unfold bind. pose proof (hardUnmute_cases E s) as Hu.
  rewrite Hopt in Hu. cbv zeta in Hu. rewrite Hobtain in Hu.
  rewrite Hu. reflexivity.
Qed.

(** X7.  A hard unmute that obtained a stream of the right kind but whose
    conference refuses to take the track back rejects with that error
    wrapped in an Error, and does not go back: the new capture handle stays
    adopted (below the effect, if there is one), nothing is released, and
    TRACK_MUTE_CHANGED is not emitted. *)
Theorem hard_unmute_refused_by_conference (E : Env) (s : State)
  (options : GumOptions.t) (streamsInfo : list IStreamInfo.t)
  (info : IStreamInfo.t) (c : ConferenceRef) (error : JsError) :
  onHardPath E false s ->
  fst (streamOptions s) = Fulfilled options ->
  obtainAudioAndVideoPermissions E
    (ObtainAudioAndVideoPermissions options :: trace (world s)) options
  = inr streamsInfo ->
  find (kindMatches s) streamsInfo = Some info ->
  conference (this s) = Some c ->
  _addLocalTrackToPc E (trace (world (snd (hardUnmute E s)))) = Some error ->
  let s' := snd (_setMuted E false s) in
  fst (_setMuted E false s) = Rejected (ErrorOf error)
  /\ preEffectStream (this s') = Some (IStreamInfo.stream info)
  /\ _streamEffect (this s') = _streamEffect (this s)
  /\ hd_error (trace (world s')) = Some (AddLocalTrackToPc c)
  /\ emits (world s') = emits (world s)
  /\ releases (world s') = releases (world s).
Proof.
  intros Hpath Hopt Hobtain Hfind Hc Hadd. cbv zeta.
  rewrite _setMuted_hard by assumption. unfold bind.
  pose proof (hardUnmute_cases E s) as Hu.
  rewrite Hopt in Hu. cbv zeta in Hu. rewrite Hobtain, Hfind, Hc in Hu.
  destruct Hu as (later & Htr & He & Hr & Hk & Hpre & _ & _ & Hhd & Ho).
  rewrite Hadd in Ho.
  destruct (hardUnmute E s) as [o1 s1]. cbn [fst snd] in *. subst o1.
  cbn [fst snd].
  split; [reflexivity|]. split; [exact Hpre|]. split; [apply Hk|].
  split.
  { rewrite Htr. destruct later; [discriminate|]. exact Hhd. }
  unfold emits, releases. rewrite Htr, !count_app, He, Hr. simpl.
  split; reflexivity.
Qed.

(** The options of the capture request of a track that is not a camera
    track are those of a desktop request, and building them cannot fail. *)
Lemma streamOptions_desktop (s : State) :
  videoType (this s) <> Some VideoType.CAMERA ->
  streamOptions s = (Fulfilled (desktopRequest (this s)), s).
Proof.
  intros Hv. apply videoType_is_false in Hv.
  unfold streamOptions, bind, get. rewrite Hv. reflexivity.
Qed.

(** X8.  An unmute of a desktop track under the policy of stream removal is
    never a no-op: even when the track is not muted, a capture request for
    the desktop is made, with no device id, no facing mode and no effect. *)
Theorem desktop_unmute_always_requests_capture (E : Env) (s : State) :
  videoType (this s) = Some VideoType.DESKTOP ->
  disposed (this s) = false ->
  isAudioTrack (this s) = false ->
  mutesByStreamRemove E (this s) = true ->
  exists later,
    trace (world (snd (_setMuted E false s)))
    = (later
       ++ ObtainAudioAndVideoPermissions (desktopRequest (this s))
          :: trace (world s))%list.
Proof.
  intros Hv Hd Ha Hp.
  assert (Hpath : onHardPath E false s).
  { unfold onHardPath, pastFirstGuard.
    apply videoType_is_true in Hv. rewrite Hv, andb_false_r. auto. }
  apply videoType_is_true in Hv.
  rewrite _setMuted_hard by assumption. unfold bind.
  pose proof (hardUnmute_cases E s) as Hu.
  rewrite streamOptions_desktop in Hu
    by (apply videoType_is_true in Hv; congruence).
  cbn [fst] in Hu. cbv zeta in Hu.
  destruct (obtainAudioAndVideoPermissions E _ _) as [error|infos].
  { rewrite Hu. now exists []. }
  destruct (find (kindMatches s) infos) as [info|].
  2:{ rewrite Hu. now exists []. }
  destruct Hu as (later & Htr & _).
  destruct (hardUnmute E s) as [[[]|error] s1]; cbn [fst snd] in *.
  - destruct (muteChanged_frame E false s1) as (l2 & -> & _).
    cbn [snd world trace]. rewrite Htr.
    exists (Emit_TRACK_MUTE_CHANGED :: l2 ++ later)%list.
    simpl. now rewrite <- app_assoc.
  - now exists later.
Qed.

(** A transition under the toggling policy on a track with a stream and a
    media stream track, and no effect with mute members: it is fulfilled,
    the target is reached, and the track record and the streams are as
    before. *)
Lemma soft_transition (E : Env) (s : State) (muted : bool)
  (r : StreamRef) (k : TrackRef) :
  disposed (this s) = false ->
  isAudioTrack (this s) || negb (mutesByStreamRemove E (this s)) = true ->
  stream (this s) = Some r ->
  isVideoTrack (this s) && negb (isActive (world s) r) = false ->
  track (this s) = Some k ->
  effect_isMuted E (this s) = None ->
  hasAudioMixEffect E (this s) = false ->
  fst (_setMuted E muted s) = Fulfilled tt
  /\ isMuted E (snd (_setMuted E muted s)) = muted
  /\ this (snd (_setMuted E muted s)) = this s
  /\ streams (world (snd (_setMuted E muted s))) = streams (world s).
Proof.
  intros Hd Hp Hst Hact Htk Heff Hmix.
  destruct (_setMuted E muted s) as [o s'] eqn:H. cbn [fst snd].
  unfold _setMuted in H. unfold bind at 1, get at 1 in H.
  destruct (Bool.eqb (isMuted E s) muted && _) eqn:Hg.
  { inversion H; subst. split; [reflexivity|].
    apply andb_true_iff in Hg. destruct Hg as [Hg _].
    apply Bool.eqb_prop in Hg. auto. }
  rewrite Hd, Hp in H. unfold bind in H.
  assert (Hsoft : softPath E muted s
                  = (Fulfilled tt,
                     mkState (this s)
                       (mkWorld
                          (fun r' => if Nat.eqb r' k
                                     then MediaStreamTrack.set_enabled
                                            (negb muted) (tracks (world s) r')
                                     else tracks (world s) r')
                          (streams (world s)) (trace (world s))))).
  { unfold softPath, hasAudioMixEffect, write_enabled in *. unfold_monad.
    rewrite Htk. destruct (_streamEffect (this s)); [rewrite Hmix|];
      reflexivity. }
  rewrite Hsoft in H.
  match type of H with
  | context [muteChanged E muted ?x] =>
      destruct (muteChanged_frame E muted x) as (l2 & Hc & _)
  end.
  rewrite Hc in H. inversion H; subst o s'; clear H Hc.
  split; [reflexivity|]. split; [|split; reflexivity].
  unfold isMuted, track_enabled, isActive in *. cbn [this world tracks streams].
  rewrite Hst, Hact, Heff, Htk, Nat.eqb_refl. simpl. apply negb_involutive.
Qed.

(** X9.  Under the toggling policy, on a track that is not disposed and holds
    a stream (live, for a video track) and a media stream track, with no
    effect that has a mute state or a mute method of its own: [_setMuted]
    is fulfilled and [isMuted()] then answers the target. *)
Theorem soft_transition_reaches_target (E : Env) (s : State) (muted : bool)
  (r : StreamRef) (k : TrackRef) :
  disposed (this s) = false ->
  isAudioTrack (this s) || negb (mutesByStreamRemove E (this s)) = true ->
  stream (this s) = Some r ->
  isVideoTrack (this s) && negb (isActive (world s) r) = false ->
  track (this s) = Some k ->
  effect_isMuted E (this s) = None ->
  hasAudioMixEffect E (this s) = false ->
  fst (_setMuted E muted s) = Fulfilled tt
  /\ isMuted E (snd (_setMuted E muted s)) = muted.
Proof.
  intros Hd Hp Hst Hact Htk Heff Hmix.
  destruct (soft_transition E s muted r k Hd Hp Hst Hact Htk Heff Hmix)
    as (Ho & Hm & _).
  split; assumption.
Qed.


(** ** More on [setEffect] *)

(** The switch, call by call: the effect in the slot is stopped, the new one
    is started on the capture handle below, and a video track is shown in
    its containers again. *)
Lemma switchAndShow_trace (E : Env) (effect : option EffectRef) (s : State) :
  exists shown,
    trace (world (snd (switchAndShow E effect s)))
    = (shown ++ starting effect (preEffectStream (this s))
       ++ stopping (_streamEffect (this s)) ++ trace (world s))%list
    /\ filter (fun ev => negb (is_attach ev)) shown = []
    /\ keptBySetEffect (this s) (this (snd (switchAndShow E effect s)))
    /\ _originalStream (this (snd (switchAndShow E effect s)))
       = match effect, _streamEffect (this s) with
         | Some _, _ => preEffectStream (this s)
         | None, Some _ => None
         | None, None => _originalStream (this s)
         end
    /\ tracks (world (snd (switchAndShow E effect s))) = tracks (world s)
    /\ streams (world (snd (switchAndShow E effect s))) = streams (world s).
Proof.
  destruct (switchAndShow E effect s) as [o s'] eqn:H. cbn [snd].
  open_state s. unfold switchAndShow, preEffectStream, keptBySetEffect in *.
  unfold_effects; unfold_monad; unfold_setters; simpl in H.
  destruct ef, effect; simpl in H; destruct (isVideoTrack _); simpl in H;
    rewrite ?forEach_attach in H; simpl in H;
    inversion H; subst o s'; clear H; simpl.
  all: first [ exists []; repeat split; reflexivity
             | eexists; split; [reflexivity|];
               split; [apply filter_attach; reflexivity|];
               repeat split; reflexivity ].
Qed.

(** When the guards of [setEffect] let the call through, [setEffect_call]
    is what follows them. *)
Lemma setEffect_call_switches (E : Env) (effect : option EffectRef)
  (s : State) :
  switchesNow E effect s ->
  setEffect_call E effect s
  = match conference (this s) with
    | None => (Now (fst (switchAndShow E effect s)),
               snd (switchAndShow E effect s))
    | Some c =>
        (Later c,
         mkState (set_setEffectInProgress true (this s))
           (mkWorld (tracks (world s)) (streams (world s))
              (RemoveLocalTrackFromPc c :: trace (world s))))
    end.
Proof.
  intros (Hsome & Hen & Hf & Hm). unfold setEffect_call.
  assert (Hcompat : match effect with
                    | Some e => negb (isEnabled (effectObject E e) (this s))
                    | None => false
                    end = false).
  { destruct effect; [now rewrite Hen | reflexivity]. }
  rewrite Hcompat, Hf, Hm.
  destruct (_streamEffect (this s)) eqn:He, effect eqn:Hef;
    try (destruct Hsome; congruence);
    destruct (conference (this s));
    try reflexivity; destruct (switchAndShow E _ s); reflexivity.
Qed.

(** X11.  On a track without conference, a [setEffect] that gets past its
    guards switches at once and is fulfilled: the wanted effect is in the
    slot, started on the capture handle that was below the former effect;
    the former effect is stopped first; the flag of the single flight stays
    down; and nothing is asked of any conference - past the start and the
    stop, the only calls attach the stream to the containers. *)
Theorem setEffect_without_conference_switches_at_once (E : Env)
  (effect : option EffectRef) (s : State) :
  switchesNow E effect s ->
  conference (this s) = None ->
  let s' := snd (setEffect E effect s) in
  fst (setEffect E effect s) = Fulfilled tt
  /\ _streamEffect (this s') = effect
  /\ preEffectStream (this s') = preEffectStream (this s)
  /\ _setEffectInProgress (this s') = false
  /\ exists shown,
       trace (world s')
       = (shown ++ starting effect (preEffectStream (this s))
          ++ stopping (_streamEffect (this s)) ++ trace (world s))%list
       /\ filter (fun ev => negb (is_attach ev)) shown = [].
Proof.
  intros Hsw Hc. cbv zeta. unfold setEffect.
  rewrite (setEffect_call_switches E effect s Hsw), Hc.
  destruct Hsw as (_ & _ & Hf & _).
  destruct (switchAndShow_spec E effect s) as (s1 & Hs & He & Hfl & _ & Hp).
  destruct (switchAndShow_trace E effect s) as (shown & Ht & Hsh & _).
  rewrite Hs in *. cbn [fst snd] in *.
  split; [reflexivity|]. split; [exact He|]. split; [exact Hp|].
  split; [congruence|]. exists shown. split; assumption.
Qed.

(** X12.  On a track with a conference, a [setEffect] that gets past its
    guards and is refused nothing is fulfilled with the wanted effect in
    the slot and the flag of the single flight down again, and the effect is
    switched only while the track is off the peer connection: the track is
    taken off first, then the former effect is stopped and the new one
    started on the capture handle below, the stream is shown, and the track
    is put back last. *)
Theorem setEffect_switches_off_the_peer_connection (E : Env)
  (effect : option EffectRef) (s : State) (c : ConferenceRef) :
  switchesNow E effect s ->
  conference (this s) = Some c ->
  let s1 := snd (setEffect_call E effect s) in
  let switched := snd (switchAndShow E effect s1) in
  _removeLocalTrackFromPc E (trace (world s1)) = None ->
  _addLocalTrackToPc E (AddLocalTrackToPc c :: trace (world switched)) = None ->
  let s' := snd (setEffect E effect s) in
  fst (setEffect E effect s) = Fulfilled tt
  /\ _streamEffect (this s') = effect
  /\ _setEffectInProgress (this s') = false
  /\ exists shown,
       trace (world s')
       = (AddLocalTrackToPc c
          :: shown ++ starting effect (preEffectStream (this s))
          ++ stopping (_streamEffect (this s))
          ++ RemoveLocalTrackFromPc c :: trace (world s))%list
       /\ filter (fun ev => negb (is_attach ev)) shown = [].
Proof.
  intros Hsw Hc. cbv zeta. unfold setEffect.
  rewrite (setEffect_call_switches E effect s Hsw), Hc. cbn [fst snd].
  set (s1 := mkState (set_setEffectInProgress true (this s))
               (mkWorld (tracks (world s)) (streams (world s))
                  (RemoveLocalTrackFromPc c :: trace (world s)))).
  intros Hdetach Hreattach.
  destruct (switchAndShow_spec E effect s1) as (s2 & Hs & He & _).
  destruct (switchAndShow_trace E effect s1) as (shown & Ht & Hsh & _).
  rewrite Hs in *. cbn [fst snd] in *.
  assert (Hchain : setEffect_chain E effect c s1
                   = (Fulfilled tt,
                      mkState (set_setEffectInProgress false (this s2))
                        (mkWorld (tracks (world s2)) (streams (world s2))
                           (AddLocalTrackToPc c :: trace (world s2))))).
  { unfold setEffect_chain, catch, addLocalTrackToPc.
    unfold bind at 1 2 3, get at 1, await at 1. rewrite Hdetach.
    unfold ret at 1, bind at 1. rewrite Hs.
    unfold bind at 1 2, call at 1, get at 1, await at 1.
    cbn [this world trace tracks streams]. rewrite Hreattach. reflexivity. }
  rewrite Hchain. cbn [fst snd this world trace].
  split; [reflexivity|]. split; [exact He|]. split; [reflexivity|].
  exists shown. split; [|exact Hsh]. rewrite Ht. reflexivity.
Qed.


Lemma keptBySetEffect_refl (t : JitsiLocalTrack) : keptBySetEffect t t.
Proof. unfold keptBySetEffect. repeat split; reflexivity. Qed.

Lemma keptBySetEffect_trans (t1 t2 t3 : JitsiLocalTrack) :
  keptBySetEffect t1 t2 -> keptBySetEffect t2 t3 -> keptBySetEffect t1 t3.
Proof.
  unfold keptBySetEffect.
  intros (?&?&?&?&?&?&?&?&?&?) (?&?&?&?&?&?&?&?&?&?).
  repeat split; congruence.
Qed.

(** Switching the effect keeps what [setEffect] does not own. *)
Lemma _switchStreamEffect_kept (E : Env) (effect : option EffectRef)
  (s : State) :
  fst (_switchStreamEffect E effect s) = Fulfilled tt
  /\ keptBySetEffect (this s) (this (snd (_switchStreamEffect E effect s))).
Proof.
  destruct (_switchStreamEffect E effect s) as [o s'] eqn:H. cbn [fst snd].
  open_state s. unfold keptBySetEffect.
  unfold_effects; unfold_monad; unfold_setters; simpl in H.
  destruct ef, effect; simpl in H; inversion H; subst o s'; simpl;
    repeat split; reflexivity.
Qed.

(** The chain behind [setEffect] keeps what [setEffect] does not own,
    fulfilled or rejected. *)
Lemma setEffect_chain_kept (E : Env) (effect : option EffectRef)
  (c : ConferenceRef) (s1 : State) :
  keptBySetEffect (this s1) (this (snd (setEffect_chain E effect c s1))).
Proof.
  destruct (setEffect_chain E effect c s1) as [o s2] eqn:H. cbn [snd].
  assert (Hflag : forall b t, keptBySetEffect t (set_setEffectInProgress b t)).
  { intros b t. unfold keptBySetEffect. repeat split; reflexivity. }
  unfold setEffect_chain, catch, addLocalTrackToPc in H.
  unfold bind at 1 2 3, get at 1, await at 1 in H.
  destruct (_removeLocalTrackFromPc E (trace (world s1))) as [error|].
  - unfold throw at 1, bind at 1 2, update at 1, throw in H.
    match type of H with
    | context [_switchStreamEffect E None ?x] =>
        destruct (_switchStreamEffect_kept E None x) as [Ho Hk];
        destruct (_switchStreamEffect E None x) as [o3 s3]
    end.
    cbn [fst snd this] in *. subst o3. inversion H; subst.
    eapply keptBySetEffect_trans; [apply (Hflag false)|exact Hk].
  - unfold ret at 1, bind at 1 in H.
    destruct (switchAndShow_spec E effect s1) as (s3 & Hsw & _).
    destruct (switchAndShow_trace E effect s1) as (_ & _ & _ & Hk1 & _).
    rewrite Hsw in *. cbn [snd] in Hk1.
    unfold bind at 1 2, call at 1, get at 1, await at 1 in H.
    cbn [this world trace] in H.
    destruct (_addLocalTrackToPc E _) as [error|].
    + unfold throw at 1, bind at 1 2, update at 1, throw in H.
      cbn [this world] in H.
      match type of H with
      | context [_switchStreamEffect E None ?x] =>
          destruct (_switchStreamEffect_kept E None x) as [Ho Hk];
          destruct (_switchStreamEffect E None x) as [o4 s4]
      end.
      cbn [fst snd this] in *. subst o4. inversion H; subst.
      eapply keptBySetEffect_trans; [exact Hk1|].
      eapply keptBySetEffect_trans; [apply (Hflag false)|exact Hk].
    + unfold ret, update in H. inversion H; subst. cbn [this].
      eapply keptBySetEffect_trans; [exact Hk1|apply Hflag].
Qed.

(** [setEffect] and the fields it does not own. *)
Lemma setEffect_kept (E : Env) (effect : option EffectRef) (s : State) :
  keptBySetEffect (this s) (this (snd (setEffect E effect s))).
Proof.
  assert (Hflag : forall b t, keptBySetEffect t (set_setEffectInProgress b t)).
  { intros b t. unfold keptBySetEffect. repeat split; reflexivity. }
  unfold setEffect.
  destruct (setEffect_call E effect s) as [[o|c] s1] eqn:Hcall.
  - cbn [snd]. unfold setEffect_call in Hcall.
    assert (Hrec : keptBySetEffect (this s) (set_streamEffect effect (this s))).
    { unfold keptBySetEffect. repeat split; reflexivity. }
    assert (Hsw : keptBySetEffect (this s)
                    (this (snd (switchAndShow E effect s)))).
    { now destruct (switchAndShow_trace E effect s) as (_ & _ & _ & Hk & _). }
    destruct (_streamEffect (this s)), effect;
      repeat match type of Hcall with
             | context [if ?b then _ else _] => destruct b
             end;
      try (inversion Hcall; subst; first [apply keptBySetEffect_refl|exact Hrec]);
      (destruct (conference (this s)); [discriminate|]);
      destruct (switchAndShow E _ s); inversion Hcall; subst; exact Hsw.
  - apply setEffect_call_later in Hcall. destruct Hcall as (_ & _ & ->).
    eapply keptBySetEffect_trans; [apply (Hflag true)|].
    apply (setEffect_chain_kept E effect c).
Qed.

(** X14.  Whatever its outcome, [setEffect] leaves the fields it does not
    own as they were: the kind and the video type, the containers, the
    conference, [disposed], the device id and the resolved device id,
    [_prevSetMuted], [_trackEnded] and [_stopStreamInProgress]. *)
Theorem setEffect_keeps_what_it_does_not_own (E : Env)
  (effect : option EffectRef) (s : State) :
  keptBySetEffect (this s) (this (snd (setEffect E effect s))).
Proof.
  apply setEffect_kept.
Qed.

(** ** More on [applyConstraints] *)

(** X15.  [applyConstraints] refuses before it calls anyone, leaving the
    state as it is: on a track that is not an audio track, with an Error
    that names the media type; on an audio track whose effect has no
    [setMuted] method, with an Error that names the effect; and on an audio
    track without conference, with a TypeError. *)
Theorem applyConstraints_refusals (E : Env) (s : State)
  (constraints : IAudioConstraints.t) :
  (isAudioTrack (this s) = false ->
   applyConstraints E constraints s
   = (Rejected (Error ("Media " ++ MediaType.to_string (getType (this s))
                       ++ " is not supported, track must be audio")), s))
  /\ (forall e,
        isAudioTrack (this s) = true ->
        _streamEffect (this s) = Some e ->
        setMuted_member (effectObject E e) = false ->
        applyConstraints E constraints s
        = (Rejected (Error ("Cannot apply constraints while the effect "
                            ++ JSON_stringify E e ++ " is active")), s))
  /\ (isAudioTrack (this s) = true ->
      _streamEffect (this s) = None \/ hasAudioMixEffect E (this s) = true ->
      conference (this s) = None ->
      applyConstraints E constraints s = (Rejected TypeError, s)).
Proof.
  split; [|split].
  - intros Ha. unfold applyConstraints, bind, get. rewrite Ha. reflexivity.
  - intros e Ha He Hm. unfold applyConstraints, bind, get.
    rewrite Ha, He, Hm. reflexivity.
  - intros Ha Heff Hc. unfold applyConstraints. unfold bind at 1, get at 1.
    rewrite Ha. simpl negb. cbv iota. unfold hasAudioMixEffect in Heff.
    destruct (_streamEffect (this s)) as [e|].
    + destruct Heff as [|Hm]; [discriminate|]. rewrite Hm.
      unfold bind at 1. rewrite Hc. reflexivity.
    + unfold bind at 1. rewrite Hc. reflexivity.
Qed.

(** X16.  When the capture request with the new constraints is granted,
    [applyConstraints] makes that one request only: its constraints are the
    settings read from the track with every own key of the constraints
    copied over them (a key that holds [undefined] and a key [deviceId]
    included), and the device it asks for is the [deviceId] of that merged
    object.  It has released the old stream once, adopts the new one, keeps
    the effect slot, asks the conference last to put the track back and
    settles as that promise does. *)
Theorem applyConstraints_first_request_granted (E : Env) (s : State)
  (constraints : IAudioConstraints.t) (c : ConferenceRef)
  (initialSettings : MediaTrackSettings.t)
  (d : IStreamInfo.t) (rest : list IStreamInfo.t) :
  isAudioTrack (this s) = true ->
  (_streamEffect (this s) = None \/ hasAudioMixEffect E (this s) = true) ->
  conference (this s) = Some c ->
  _removeLocalTrackFromPc E (RemoveLocalTrackFromPc c :: trace (world s))
  = None ->
  let s1 := tornDown E c s in
  settingsOf s1 = Some initialSettings ->
  let wanted := spread initialSettings constraints in
  let deviceId := read (MediaTrackConstraints.deviceId wanted) in
  let first := constraintsRequest MediaType.AUDIO deviceId wanted in
  obtainAudioAndVideoPermissions E
    (ObtainAudioAndVideoPermissions first :: trace (world s1)) first
  = inr (d :: rest) ->
  let result := applyConstraints E constraints s in
  let after := snd result in
  obtains (trace (world after))
  = ObtainAudioAndVideoPermissions first :: obtains (trace (world s))
  /\ releases (world after) = S (releases (world s))
  /\ preEffectStream (this after) = Some (IStreamInfo.stream d)
  /\ _streamEffect (this after) = _streamEffect (this s)
  /\ hd_error (trace (world after)) = Some (AddLocalTrackToPc c)
  /\ fst result
     = match _addLocalTrackToPc E (trace (world after)) with
       | None => Fulfilled tt
       | Some error => Rejected error
       end.
Proof.
  intros Haudio Heff Hconf Hdetach s1 Hsettings wanted deviceId first Hfirst
    result after.
  subst after result.
  destruct (applyConstraints E constraints s) as [o s'] eqn:H. cbn [fst snd].
  subst s1 first deviceId wanted.
  unfold isAudioTrack, getType in Haudio. apply MediaType_eqb_eq in Haudio.
  open_state s. subst ty cf.
  unfold applyConstraints, tornDown, settingsOf, hasAudioMixEffect, obtain,
    preEffectStream, obtains, releases, constraintsRequest, isAudioTrack,
    getType in *.
  unfold_effects; unfold_monad; unfold_setters. simpl in *.
  destruct Heff as [->|Hmix].
  - simpl in H. rewrite Hdetach in *. simpl in *.
    destruct tk as [r|]; [|discriminate]. simpl in *.
    rewrite Hsettings in H. simpl in H. rewrite Hfirst in H. simpl in H.
    destruct (_addLocalTrackToPc E _) eqn:Hadd; simpl in H;
      inversion H; subst o s'; simpl; rewrite ?Hadd;
      repeat split; reflexivity.
  - destruct ef as [e|]; [|discriminate]. simpl in Hmix.
    simpl in H. rewrite Hmix in *. simpl in *. rewrite Hdetach in *. simpl in *.
    destruct (match os with Some r => _ | None => None end) as [r|];
      [|discriminate]. simpl in *.
    rewrite Hsettings in H. simpl in H. rewrite Hfirst in H. simpl in H.
    destruct (_addLocalTrackToPc E _) eqn:Hadd; simpl in H;
      inversion H; subst o s'; simpl; rewrite ?Hadd;
      repeat split; reflexivity.
Qed.

(** X17.  When the capture request with the new constraints fails and the
    retry - the settings as they were read for constraints, the [deviceId]
    of the merged object for device - gives no stream either,
    [applyConstraints] rejects with the rejection of the retry, or with
    GENERAL when the retry resolved with no stream.  The track is not put
    back: the retry is the last call, the conference was only asked to take
    the track off, the stream was released, and the track still holds the
    released handle. *)
Theorem applyConstraints_both_requests_fail (E : Env) (s : State)
  (constraints : IAudioConstraints.t) (c : ConferenceRef)
  (initialSettings : MediaTrackSettings.t) (error : JsError) :
  isAudioTrack (this s) = true ->
  (_streamEffect (this s) = None \/ hasAudioMixEffect E (this s) = true) ->
  conference (this s) = Some c ->
  _removeLocalTrackFromPc E (RemoveLocalTrackFromPc c :: trace (world s))
  = None ->
  let s1 := tornDown E c s in
  settingsOf s1 = Some initialSettings ->
  let wanted := spread initialSettings constraints in
  let deviceId := read (MediaTrackConstraints.deviceId wanted) in
  let first := constraintsRequest MediaType.AUDIO deviceId wanted in
  let retry :=
    constraintsRequest MediaType.AUDIO deviceId
      (MediaTrackConstraints.ofSettings initialSettings) in
  failed (obtainAudioAndVideoPermissions E
            (ObtainAudioAndVideoPermissions first :: trace (world s1)) first) ->
  surfaced (obtainAudioAndVideoPermissions E
              (ObtainAudioAndVideoPermissions retry
               :: ObtainAudioAndVideoPermissions first :: trace (world s1))
              retry)
  = Some error ->
  let result := applyConstraints E constraints s in
  let after := snd result in
  fst result = Rejected error
  /\ hd_error (trace (world after)) = Some (ObtainAudioAndVideoPermissions retry)
  /\ transports (world after) = S (transports (world s))
  /\ releases (world after) = S (releases (world s))
  /\ stream (this after) = preEffectStream (this s)
  /\ _streamEffect (this after) = _streamEffect (this s).
Proof.
  intros Haudio Heff Hconf Hdetach s1 Hsettings wanted deviceId first retry
    Hfirst Hretry result after.
  subst after result.
  destruct (applyConstraints E constraints s) as [o s'] eqn:H. cbn [fst snd].
  subst s1 retry first deviceId wanted.
  unfold isAudioTrack, getType in Haudio. apply MediaType_eqb_eq in Haudio.
  open_state s. subst ty cf.
  unfold applyConstraints, tornDown, settingsOf, hasAudioMixEffect, obtain,
    preEffectStream, transports, releases, constraintsRequest, isAudioTrack,
    getType in *.
  unfold_effects; unfold_monad; unfold_setters. simpl in *.
  destruct Heff as [->|Hmix].
  - simpl in H. rewrite Hdetach in *. simpl in *.
    destruct tk as [r|]; [|discriminate]. simpl in *.
    rewrite Hsettings in H. simpl in H.
    match type of Hfirst with
    | failed ?a => destruct a as [err1|[|x l]] eqn:Ha
    end; try contradiction; simpl in H;
    match type of Hretry with
    | surfaced ?a = _ => destruct a as [err2|[|y l2]] eqn:Hb
    end; try discriminate; simpl in H, Hretry;
    inversion Hretry; subst error; inversion H; subst o s'; simpl;
    repeat split; reflexivity.
  - destruct ef as [e|]; [|discriminate]. simpl in Hmix.
    simpl in H. rewrite Hmix in *. simpl in *. rewrite Hdetach in *. simpl in *.
    destruct (match os with Some r => _ | None => None end) as [r|];
      [|discriminate]. simpl in *.
    rewrite Hsettings in H. simpl in H.
    match type of Hfirst with
    | failed ?a => destruct a as [err1|[|x l]] eqn:Ha
    end; try contradiction; simpl in H;
    match type of Hretry with
    | surfaced ?a = _ => destruct a as [err2|[|y l2]] eqn:Hb
    end; try discriminate; simpl in H, Hretry;
    inversion Hretry; subst error; inversion H; subst o s'; simpl;
    repeat split; reflexivity.
Qed.

(** ** More on the device list *)

(** The reconciliation of the resolved id, by cases. *)
Lemma _setRealDeviceIdFromDeviceList_cases (devices : list MediaDeviceInfo.t)
  (s : State) (k : TrackRef) :
  getTrack (this s) = Some k ->
  let resolved :=
    match find (matchesExactly s k) devices with
    | Some d => Some (MediaDeviceInfo.deviceId d)
    | None =>
        match _realDeviceId (this s) with
        | Some id =>
            if String.eqb id "default"
            then option_map MediaDeviceInfo.deviceId
                   (find (matchesLabel s k
                            (replace "Default - " ""
                               (MediaStreamTrack.label (tracks (world s) k))))
                      devices)
            else None
        | None => None
        end
    end in
  _setRealDeviceIdFromDeviceList devices s
  = (Fulfilled tt, mkState (set_realDeviceId resolved (this s)) (world s)).
Proof.
  intros Hk. cbv zeta.
  unfold _setRealDeviceIdFromDeviceList, matchesExactly, matchesLabel,
    deviceKind.
  unfold bind, get. rewrite Hk.
  destruct (find _ devices) as [d|]; [reflexivity|].
  destruct (_realDeviceId (this s)) as [id|]; [|reflexivity].
  destruct (String.eqb id "default"); [|reflexivity].
  destruct (find _ devices); reflexivity.
Qed.

(** X18.  A notification of a changed device list writes two fields only,
    the resolved device id and the flag [_trackEnded]: every other field of
    the track, the store and the trace are as before (no call is made).  The
    flag is raised exactly when it was up already or the resolved id went
    from defined to undefined. *)
Theorem device_list_change_owns_two_fields (devices : list MediaDeviceInfo.t)
  (s : State) :
  let s' := snd (_onDeviceListWillChange devices s) in
  world s' = world s
  /\ this s'
     = set_trackEnded (_trackEnded (this s'))
         (set_realDeviceId (_realDeviceId (this s')) (this s))
  /\ _trackEnded (this s')
     = _trackEnded (this s)
       || no_longer_resolved (_realDeviceId (this s)) (_realDeviceId (this s')).
Proof.
  cbv zeta.
  assert (Hself : forall t,
             t = set_trackEnded (_trackEnded t)
                   (set_realDeviceId (_realDeviceId t) t))
    by (intros []; reflexivity).
  assert (Hnot : forall x, no_longer_resolved x x = false)
    by (intros []; reflexivity).
  destruct (getTrack (this s)) as [k|] eqn:Hk.
  - pose proof (_onDeviceListWillChange_spec devices s) as Hflag.
    cbv zeta in Hflag. rewrite Hk in Hflag.
    assert (Hdead :
      gone_without_readyState devices
        (MediaStreamTrack.readyState (tracks (world s) k))
        (_realDeviceId (this (snd (_onDeviceListWillChange devices s))))
      = false).
    { destruct (_onDeviceListWillChange devices s) as [o s'] eqn:H.
      unfold _onDeviceListWillChange in H. unfold bind at 1 2, get at 1 in H.
      pose proof (resolved_device_is_listed devices s k
                    (MediaStreamTrack.readyState (tracks (world s) k)) Hk)
        as Hl.
      rewrite (_setRealDeviceIdFromDeviceList_cases devices s k Hk) in H, Hl.
      cbn [snd this] in Hl. unfold bind at 1, get at 1 in H.
      cbn [this world] in H. unfold getTrack in H, Hk.
      change (track (set_realDeviceId ?v (this s))) with (track (this s)) in H.
      rewrite Hk in H. unfold when, update, ret in H.
      destruct (_ || _) in H; inversion H; subst; exact Hl. }
    rewrite Hdead in Hflag. simpl in Hflag.
    destruct (_onDeviceListWillChange devices s) as [o s'] eqn:H.
    cbn [snd] in *. split; [|split; [|exact Hflag]].
    + unfold _onDeviceListWillChange in H. unfold bind at 1 2, get at 1 in H.
      rewrite (_setRealDeviceIdFromDeviceList_cases devices s k Hk) in H.
      unfold bind at 1, get at 1 in H. cbn [this world] in H.
      unfold getTrack in H, Hk.
      change (track (set_realDeviceId ?v (this s))) with (track (this s)) in H.
      rewrite Hk in H. unfold when, update, ret in H.
      destruct (_ || _) in H; inversion H; subst; reflexivity.
    + unfold _onDeviceListWillChange in H. unfold bind at 1 2, get at 1 in H.
      rewrite (_setRealDeviceIdFromDeviceList_cases devices s k Hk) in H.
      unfold bind at 1, get at 1 in H. cbn [this world] in H.
      unfold getTrack in H, Hk.
      change (track (set_realDeviceId ?v (this s))) with (track (this s)) in H.
      rewrite Hk in H. unfold when, update, ret in H.
      destruct s as [[] ?].
      destruct (_ || _) in H; inversion H; subst; reflexivity.
  - pose proof (_onDeviceListWillChange_spec devices s) as Hs.
    cbv zeta in Hs. rewrite Hk in Hs. rewrite Hs.
    split; [reflexivity|]. split; [apply Hself|].
    now rewrite Hnot, orb_false_r.
Qed.

Lemma strip_prefix_app (p s : string) : strip_prefix p (p ++ s) = Some s.
Proof.
  induction p as [|a p IH]; [reflexivity|]. simpl.
  now rewrite Ascii.eqb_refl.
Qed.

(** Replacing a prefix: the first occurrence is the one at the start. *)
Lemma replace_prefix (p r s : string) : replace p r (p ++ s) = r ++ s.
Proof.
  destruct (p ++ s) eqn:H; simpl.
  - destruct p; [|discriminate]. simpl in H. subst. reflexivity.
  - now rewrite <- H, strip_prefix_app.
Qed.

(** What a notification does to the resolved id and to the flag, on a
    track that has a media stream track. *)
Lemma _onDeviceListWillChange_resolved (devices : list MediaDeviceInfo.t)
  (s : State) (k : TrackRef) :
  getTrack (this s) = Some k ->
  let s' := snd (_onDeviceListWillChange devices s) in
  _realDeviceId (this s')
  = _realDeviceId (this (snd (_setRealDeviceIdFromDeviceList devices s)))
  /\ _trackEnded (this s')
     = _trackEnded (this s)
       || no_longer_resolved (_realDeviceId (this s)) (_realDeviceId (this s')).
Proof.
  intros Hk. cbv zeta.
  pose proof (_onDeviceListWillChange_spec devices s) as Hflag.
  cbv zeta in Hflag. rewrite Hk in Hflag.
  pose proof (resolved_device_is_listed devices s k
                (MediaStreamTrack.readyState (tracks (world s) k)) Hk) as Hl.
  destruct (_onDeviceListWillChange devices s) as [o s'] eqn:H.
  unfold _onDeviceListWillChange in H. unfold bind at 1 2, get at 1 in H.
  rewrite (_setRealDeviceIdFromDeviceList_cases devices s k Hk) in H, Hl |- *.
  cbn [snd this] in *. unfold bind at 1, get at 1 in H.
  cbn [this world] in H. unfold getTrack in H, Hk.
  change (track (set_realDeviceId ?v (this s))) with (track (this s)) in H.
  rewrite Hk in H. unfold when, update, ret in H.
  assert (Hr : _realDeviceId (this s')
               = _realDeviceId
                   (set_realDeviceId
                      match find (matchesExactly s k) devices with
                      | Some d => Some (MediaDeviceInfo.deviceId d)
                      | None =>
                          match _realDeviceId (this s) with
                          | Some id =>
                              if String.eqb id "default"
                              then option_map MediaDeviceInfo.deviceId
                                     (find (matchesLabel s k
                                              (replace "Default - " ""
                                                 (MediaStreamTrack.label
                                                    (tracks (world s) k))))
                                        devices)
                              else None
                          | None => None
                          end
                      end (this s))).
  { destruct (_ || _) in H; inversion H; subst; reflexivity. }
  split; [exact Hr|]. rewrite Hr in Hflag. rewrite Hl in Hflag.
  rewrite Hr. exact Hflag.
Qed.

(** X19.  When the list has the device the track was asked for (same kind,
    same label, same id), the resolved id is the requested id and the
    notification does not raise the flag. *)
Theorem device_listed_resolves_to_requested_id
  (devices : list MediaDeviceInfo.t) (s : State) (k : TrackRef)
  (d : MediaDeviceInfo.t) :
  getTrack (this s) = Some k ->
  find (matchesExactly s k) devices = Some d ->
  let s' := snd (_onDeviceListWillChange devices s) in
  _realDeviceId (this s') = Some (deviceId (this s))
  /\ _trackEnded (this s') = _trackEnded (this s).
Proof.
  intros Hk Hf. cbv zeta.
  destruct (_onDeviceListWillChange_resolved devices s k Hk) as [Hr Hfl].
  rewrite (_setRealDeviceIdFromDeviceList_cases devices s k Hk) in Hr.
  rewrite Hf in Hr. cbn [snd this] in Hr.
  apply find_some in Hf. destruct Hf as [_ Hm]. unfold matchesExactly in Hm.
  apply andb_true_iff in Hm. destruct Hm as [_ Hm].
  apply String.eqb_eq in Hm.
  assert (Hid : _realDeviceId (this (snd (_onDeviceListWillChange devices s)))
                = Some (deviceId (this s))).
  { rewrite Hr. simpl. now rewrite Hm. }
  split; [exact Hid|]. rewrite Hfl, Hid.
  destruct (_realDeviceId (this s)); simpl; now rewrite orb_false_r.
Qed.

(** X20.  The default device has changed: the track was resolved to
    'default', its label is 'Default - ' followed by a name, and the list no
    longer has the device asked for but has a device of the same kind with
    that name as label.  Then the track is resolved to the id of the first
    such device, and the notification does not raise the flag. *)
Theorem default_device_change_is_followed
  (devices : list MediaDeviceInfo.t) (s : State) (k : TrackRef)
  (name : string) (d : MediaDeviceInfo.t) :
  getTrack (this s) = Some k ->
  _realDeviceId (this s) = Some "default" ->
  MediaStreamTrack.label (tracks (world s) k) = "Default - " ++ name ->
  find (matchesExactly s k) devices = None ->
  find (matchesLabel s k name) devices = Some d ->
  let s' := snd (_onDeviceListWillChange devices s) in
  _realDeviceId (this s') = Some (MediaDeviceInfo.deviceId d)
  /\ _trackEnded (this s') = _trackEnded (this s).
Proof.
  intros Hk Hreal Hlabel Hexact Hname. cbv zeta.
  destruct (_onDeviceListWillChange_resolved devices s k Hk) as [Hr Hfl].
  rewrite (_setRealDeviceIdFromDeviceList_cases devices s k Hk) in Hr.
  rewrite Hexact, Hreal, Hlabel, replace_prefix in Hr. simpl in Hr.
  rewrite Hname in Hr. simpl in Hr.
  split; [exact Hr|]. rewrite Hfl, Hr, Hreal. simpl. apply orb_false_r.
Qed.

(** X21.  After a notification, a resolved id that is defined is the id of
    a device of the list, and that device has the kind of the media stream
    track. *)
Theorem resolved_id_names_a_listed_device_of_the_kind
  (devices : list MediaDeviceInfo.t) (s : State) (k : TrackRef) (id : string) :
  getTrack (this s) = Some k ->
  _realDeviceId (this (snd (_onDeviceListWillChange devices s))) = Some id ->
  exists d,
    In d devices
    /\ MediaDeviceInfo.deviceId d = id
    /\ MediaDeviceInfo.kind d = deviceKind (world s) k.
Proof.
  intros Hk Hid.
  destruct (_onDeviceListWillChange_resolved devices s k Hk) as [Hr _].
  rewrite Hr in Hid. clear Hr.
  rewrite (_setRealDeviceIdFromDeviceList_cases devices s k Hk) in Hid.
  cbn [snd this] in Hid. simpl in Hid.
  destruct (find (matchesExactly s k) devices) as [d|] eqn:Hf.
  - apply find_some in Hf. destruct Hf as [Hin Hm].
    unfold matchesExactly in Hm.
    apply andb_true_iff in Hm. destruct Hm as [Hm _].
    apply andb_true_iff in Hm. destruct Hm as [Hm _].
    apply String.eqb_eq in Hm. exists d. inversion Hid. auto.
  - destruct (_realDeviceId (this s)) as [old|]; simpl in Hid;
      [|discriminate].
    destruct (String.eqb old "default"); simpl in Hid; [|discriminate].
    destruct (find (matchesLabel _ _ _) devices) as [d|] eqn:Hf';
      simpl in Hid; [|discriminate].
    apply find_some in Hf'. destruct Hf' as [Hin Hm].
    unfold matchesLabel in Hm.
    apply andb_true_iff in Hm. destruct Hm as [Hm _].
    apply String.eqb_eq in Hm. exists d. inversion Hid. auto.
Qed.

(** ** More on the queue *)


(** ** isEnded after a mute that removed the stream *)

(** A hard mute the conference does not refuse: fulfilled, the capture
    handle is gone, and what a mute does not own is as before. *)
Lemma hard_mute_fulfilled (E : Env) (s : State) :
  onHardPath E true s ->
  match conference (this s) with
  | Some c =>
      _removeLocalTrackFromPc E (RemoveLocalTrackFromPc c :: trace (world s))
  | None => None
  end = None ->
  fst (_setMuted E true s) = Fulfilled tt
  /\ stream (this (snd (_setMuted E true s))) = None
  /\ _stopStreamInProgress (this (snd (_setMuted E true s))) = false
  /\ keptByMute (this s) (this (snd (_setMuted E true s))).
Proof.
  intros Hpath Hr. rewrite _setMuted_hard by assumption. unfold bind.
  pose proof (hardMute_cases E s) as Hm. cbv zeta in Hm. rewrite Hr in Hm.
  destruct Hm as (Ho & Hst & Hsp & Hk & _).
  destruct (hardMute E s) as [o1 s1]. cbn [fst snd] in *. subst o1.
  destruct (muteChanged_frame E true s1) as (l2 & Hc & _).
  rewrite Hc. cbn [fst snd this]. repeat split; try assumption; apply Hk.
Qed.

(** X23.  After a fulfilled mute of a video track by stream removal,
    [isEnded()] answers the flag [_trackEnded] as it was before the mute,
    whatever the ready state of the released media stream track: such a
    mute never makes the track report ended. *)
Theorem hard_muted_video_track_is_ended_by_flag_only (E : Env) (s : State) :
  onHardPath E true s ->
  isVideoTrack (this s) = true ->
  match conference (this s) with
  | Some c =>
      _removeLocalTrackFromPc E (RemoveLocalTrackFromPc c :: trace (world s))
  | None => None
  end = None ->
  let s' := snd (_setMuted E true s) in
  isEnded E s' = (Fulfilled (_trackEnded (this s)), s').
Proof.
  intros Hpath Hv Hr. cbv zeta.
  destruct (hard_mute_fulfilled E s Hpath Hr) as (_ & Hst & _ & Hk).
  destruct Hk as (Hty & _ & _ & _ & _ & _ & _ & Hen & _).
  destruct (_setMuted E true s) as [o s']. cbn [fst snd] in *.
  unfold isEnded, bind, get, isMuted, isVideoTrack, getType in *.
  rewrite Hty, Hv, Hst, Hen. reflexivity.
Qed.

(** ** The camera switch *)

(** X24.  On a camera track whose media stream track has the native switch
    and whose settings say nothing about the facing mode, before and after
    the native call: [_switchCamera] is fulfilled and [getCameraFacingMode]
    then answers the opposite of what it answered before - also the first
    time, when no facing mode is recorded and the answer is USER. *)
Theorem switchCamera_flips_reported_facing_mode
  (native : TrackRef -> option (World -> World)) (s : State) (k : TrackRef)
  (run : World -> World) :
  isVideoTrack (this s) = true ->
  videoType (this s) = Some VideoType.CAMERA ->
  track (this s) = Some k ->
  native k = Some run ->
  settingsSilent s ->
  settingsSilent (mkState (this s) (run (world s))) ->
  exists m,
    fst (getCameraFacingMode s) = Fulfilled (Some m)
    /\ fst (_switchCamera native s) = Fulfilled tt
    /\ fst (getCameraFacingMode (snd (_switchCamera native s)))
       = Fulfilled (Some (opposite m)).
Proof.
  intros Hv Hvt Hk Hn Hs Hs'.
  unfold settingsSilent in Hs, Hs'. cbn [this world] in Hs'.
  rewrite Hk in Hs, Hs'.
  unfold _switchCamera, getCameraFacingMode, videoType_is.
  unfold_monad. rewrite Hv, Hvt, Hk, Hn. cbn [videoType_eqb VideoType.eqb andb].
  cbn [this world fst snd]. unfold set_facingMode. cbn [type videoType track _facingMode].
  unfold isVideoTrack, getType in *. cbn [type]. rewrite Hv, Hvt, Hk.
  cbn [videoType_eqb VideoType.eqb andb].
  destruct (MediaStreamTrack.getSettings (tracks (world s) k)) as [[d f a c e n]|];
    destruct (MediaStreamTrack.getSettings (tracks (run (world s)) k))
      as [[d' f' a' c' e' n']|];
    cbn in Hs, Hs'; subst;
    destruct (_facingMode (this s)) as [[|]|];
    eexists; repeat split; reflexivity.
Qed.

(** ** dispose *)

(** X25.  [dispose] of a track that holds an effect whose removal is
    rejected - as it is while another [setEffect] is in flight - rejects
    with that error right there: the conference is not asked to remove the
    track, the stream is not stopped, nothing is unsubscribed, and the track
    is not disposed. *)
Theorem dispose_stops_where_effect_removal_fails (E : Env) (O : Outside)
  (s : State) (e : EffectRef) (error : JsError) :
  disposed (this s) = false ->
  _streamEffect (this s) = Some e ->
  fst (setEffect E None s) = Rejected error ->
  dispose E O s = (Rejected error, snd (setEffect E None s))
  /\ disposed (this (snd (setEffect E None s))) = false.
Proof.
  intros Hd He Hrej. split.
  - unfold dispose. unfold bind at 1, get at 1. rewrite Hd, He.
    unfold when, bind at 1.
    destruct (setEffect E None s) as [o s1]. cbn [fst snd] in *. subst o.
    reflexivity.
  - pose proof (setEffect_kept E None s) as Hk.
    destruct Hk as (_ & _ & _ & _ & Hdis & _). rewrite Hdis. exact Hd.
Qed.

(** X26.  [dispose] of a track without conference that holds an effect and
    is where [setEffect] switches: the effect is stopped first, the stream
    is attached to the containers (nothing else is called in between), and
    the stream that is then stopped is the capture handle that was below
    the effect, not the stream the effect produced; the slot of the effect is empty when the track is
    unsubscribed and handed to the base class. *)
Theorem dispose_releases_the_capture_handle_below_the_effect (E : Env)
  (O : Outside) (s : State) (e : EffectRef) (r : StreamRef) :
  disposed (this s) = false ->
  switchesNow E None s ->
  _streamEffect (this s) = Some e ->
  _originalStream (this s) = Some r ->
  conference (this s) = None ->
  exists s2 shown,
    dispose E O s = unsubscribe O s2
    /\ stream (this s2) = Some r
    /\ _streamEffect (this s2) = None
    /\ _originalStream (this s2) = None
    /\ _stopStreamInProgress (this s2) = false
    /\ disposed (this s2) = false
    /\ trace (world s2)
       = (StopMediaStream (Some r) :: shown ++ StopEffect e :: trace (world s))%list
    /\ filter (fun ev => negb (is_attach ev)) shown = [].
Proof.
  intros Hd Hsw He Hos Hc.
  unfold dispose. unfold bind at 1, get at 1. rewrite Hd, He.
  unfold when at 1. unfold bind at 1. unfold setEffect.
  rewrite (setEffect_call_switches E None s Hsw), Hc.
  destruct (switchAndShow_spec E None s) as (s1 & Hs & Hef & _ & Hcf & Hp).
  destruct (switchAndShow_trace E None s) as (shown & Ht & Hsh & Hk & Ho & _).
  rewrite Hs in *. cbn [fst snd] in *.
  unfold preEffectStream in Hp. rewrite Hef, He, Hos in Hp.
  rewrite He in Ho, Ht. rewrite Hc in Hcf.
  destruct Hk as (_ & _ & _ & _ & Hdis & _).
  unfold bind at 1, get at 1. rewrite Hcf. unfold bind at 1, ret at 1.
  unfold bind at 1, get at 1. rewrite Hp. unfold when at 1.
  unfold bind at 1. unfold stopStream, stopMediaStream.
  unfold_monad. cbn [this world stream].
  eexists. exists shown. split; [reflexivity|].
  destruct s1 as [t1 w1]. destruct t1. cbn in *.
  subst. repeat split; try reflexivity; try assumption. now rewrite Ht.
Qed.

(** ** Bytes sent *)

Ltac one_report :=
  unfold onByteSentStatsReceived;
  match goal with |- context [(0 <? ?b)%Z] => destruct (0 <? b)%Z end;
  cbn;
  repeat match goal with
         | H : _ = _ |- _ => rewrite H; cbn
         end;
  split; reflexivity.

Lemma reports_tested (rs : list (string * Z)) (d : SentData) :
  _testDataSent d = false ->
  timeouts (reports rs d) = timeouts d
  /\ _testDataSent (reports rs d) = false.
Proof.
  revert d. induction rs as [|[st b] rs IH]; intros d Hd; [now split|].
  change (reports ((st, b) :: rs) d)
    with (reports rs (onByteSentStatsReceived st b d)).
  assert (Hstep : _testDataSent (onByteSentStatsReceived st b d) = false
                  /\ timeouts (onByteSentStatsReceived st b d) = timeouts d).
  { one_report. }
  destruct Hstep as (H1 & H2).
  destruct (IH _ H1) as (IH1 & IH2). rewrite IH1, H2. split; [reflexivity|exact IH2].
Qed.

(** X27.  However many reports of bytes sent arrive, the check for missing
    data is handed to the timer at most once: at the first report that
    finds the connection connected while the check is still due, and with
    the byte count of that report; afterwards the check is no longer
    due. *)
Theorem sent_data_check_is_scheduled_once (rs : list (string * Z))
  (d : SentData) :
  let connected := fun r : string * Z => String.eqb (fst r) "connected" in
  timeouts (reports rs d)
  = ((if _testDataSent d
      then match find connected rs with
           | Some r => [snd r]
           | None => []
           end
      else []) ++ timeouts d)%list
  /\ _testDataSent (reports rs d)
     = _testDataSent d && negb (existsb connected rs).
Proof.
  cbv zeta. destruct (_testDataSent d) eqn:Hd.
  2:{ destruct (reports_tested rs d Hd) as (H1 & H2). now rewrite H1, H2. }
  revert d Hd. induction rs as [|[st b] rs IH]; intros d Hd.
  - cbn. now rewrite Hd.
  - change (reports ((st, b) :: rs) d)
      with (reports rs (onByteSentStatsReceived st b d)).
    cbn [find existsb fst snd].
    destruct (String.eqb st "connected") eqn:Hst.
    + assert (Hstep : _testDataSent (onByteSentStatsReceived st b d) = false
                      /\ timeouts (onByteSentStatsReceived st b d)
                         = b :: timeouts d).
      { one_report. }
      destruct Hstep as (H1 & H2).
      destruct (reports_tested rs _ H1) as (H3 & H4).
      rewrite H3, H4, H2. split; reflexivity.
    + assert (Hstep : _testDataSent (onByteSentStatsReceived st b d) = true
                      /\ timeouts (onByteSentStatsReceived st b d)
                         = timeouts d).
      { one_report. }
      destruct Hstep as (H1 & H2).
      destruct (IH _ H1) as (H3 & H4). rewrite H3, H4, H2.
      split; reflexivity.
Qed.

(** X28.  The flag [_hasSentData] is never lowered, and it is up after a
    run of reports exactly when it was up before or one of them carried a
    positive byte count.  So the check the timer runs sends NO_BYTES_SENT
    exactly when the flag was down and no report so far carried a positive
    byte count, whatever the connection states. *)
Theorem no_bytes_sent_only_when_no_report_had_bytes
  (rs : list (string * Z)) (d : SentData) :
  _hasSentData (reports rs d)
  = _hasSentData d || existsb (fun r => (0 <? snd r)%Z) rs
  /\ (timeout_sends_NO_BYTES_SENT (reports rs d) = true
      <-> _hasSentData d = false /\ Forall (fun r => (snd r <= 0)%Z) rs).
Proof.
  assert (H : forall rs d,
             _hasSentData (reports rs d)
             = _hasSentData d || existsb (fun r => (0 <? snd r)%Z) rs).
  { clear. induction rs as [|[st b] rs IH]; intros d.
    - cbn. now rewrite orb_false_r.
    - change (reports ((st, b) :: rs) d)
        with (reports rs (onByteSentStatsReceived st b d)).
      cbn [existsb fst snd]. rewrite IH.
      unfold onByteSentStatsReceived.
      destruct (0 <? b)%Z; cbn;
        destruct (_testDataSent d && String.eqb st "connected"); cbn;
        rewrite ?orb_true_r; reflexivity. }
  split; [apply H|].
  unfold timeout_sends_NO_BYTES_SENT. rewrite H, negb_true_iff, orb_false_iff.
  split; intros (H1 & H2); split; try assumption.
  - apply Forall_forall. intros r Hin.
    destruct (0 <? snd r)%Z eqn:Hr; [|apply Z.ltb_ge; exact Hr].
    assert (existsb (fun r => (0 <? snd r)%Z) rs = true)
      by (apply existsb_exists; now exists r).
    congruence.
  - destruct (existsb _ rs) eqn:Hex; [|reflexivity].
    apply existsb_exists in Hex. destruct Hex as (r & Hin & Hr).
    rewrite Forall_forall in H2. specialize (H2 r Hin).
    apply Z.ltb_lt in Hr. lia.
Qed.

(** ** The no-data monitor *)

(** X29.  A handler for the signal that the capture handle ended is set
    for camera tracks only, and it raises the alarm only when the track
    receives no data: it sends nothing, or NO_DATA_FROM_SOURCE with the
    value [true] and its analytics event; it never touches the time of the
    last mute signal. *)
Theorem ended_signal_alarms_only_without_data (E : Env)
  (effectEnabled : bool) (muted : TrackRef -> option bool)
  (t : JitsiLocalTrack)
  (h : Z -> State -> Monitor -> Outcome unit * Monitor) :
  In (track_ended, h) (_initNoDataFromSourceHandlers E effectEnabled muted t) ->
  isVideoTrack t = true
  /\ videoType t = Some VideoType.CAMERA
  /\ forall (now : Z) (s : State) (m : Monitor),
       let m' := snd (h now s m) in
       _trackMutedTS m' = _trackMutedTS m
       /\ (sent m' = sent m
           \/ (isReceivingData E effectEnabled muted s = Fulfilled false
               /\ sent m'
                  = Analytics_NO_DATA_FROM_SOURCE (getType (this s)) true
                    :: Emit_NO_DATA_FROM_SOURCE true :: sent m)).
Proof.
  unfold _initNoDataFromSourceHandlers. intros Hin.
  destruct (negb (_isNoDataFromSourceEventsEnabled t)); [destruct Hin|].
  destruct (isVideoTrack t) eqn:Hv; cbn [andb] in Hin.
  2:{ cbn in Hin. destruct Hin as [H|[H|[]]]; discriminate. }
  destruct (videoType_is VideoType.CAMERA t) eqn:Hc.
  2:{ cbn in Hin. destruct Hin as [H|[H|[]]]; discriminate. }
  cbn in Hin. destruct Hin as [H|[H|[H|[]]]]; try discriminate.
  inversion H; subst h; clear H.
  split; [reflexivity|]. split.
  { unfold videoType_is in Hc. destruct (videoType t) as [[|]|];
      try discriminate; reflexivity. }
  intros now s m. cbv zeta. unfold on_track_ended, _fireNoDataFromSourceEvent.
  destruct (isReceivingData E effectEnabled muted s) as [[|]|err];
    cbn [snd _trackMutedTS sent negb]; split; try reflexivity;
    first [left; reflexivity | right; split; reflexivity].
Qed.

(** X30.  While a video track is muted by stream removal - after a
    fulfilled mute on that path - the monitor raises no false alarm: the
    track counts as receiving data, a mute signal of the capture handle is
    reported with the value [false], and an ended signal is not reported at
    all. *)
Theorem hard_muted_video_track_raises_no_alarm (E : Env)
  (effectEnabled : bool) (muted : TrackRef -> option bool) (s : State)
  (now : Z) (m : Monitor) :
  onHardPath E true s ->
  isVideoTrack (this s) = true ->
  match conference (this s) with
  | Some c =>
      _removeLocalTrackFromPc E (RemoveLocalTrackFromPc c :: trace (world s))
  | None => None
  end = None ->
  let s' := snd (_setMuted E true s) in
  isReceivingData E effectEnabled muted s' = Fulfilled true
  /\ alarms (sent (snd (on_track_mute E effectEnabled muted now s' m)))
     = false :: alarms (sent m)
  /\ on_track_ended E effectEnabled muted now s' m = (Fulfilled tt, m).
Proof.
  intros Hpath Hv Hr. cbv zeta.
  destruct (hard_mute_fulfilled E s Hpath Hr) as (_ & Hst & _ & Hk).
  destruct Hk as (Hty & _).
  destruct (_setMuted E true s) as [o s']. cbn [fst snd] in *.
  assert (Hrec : isReceivingData E effectEnabled muted s' = Fulfilled true).
  { unfold isReceivingData, isMuted, isVideoTrack, getType in *.
    rewrite Hty, Hv, Hst. reflexivity. }
  split; [exact Hrec|].
  unfold on_track_mute, on_track_ended, _fireNoDataFromSourceEvent.
  rewrite Hrec. split; reflexivity.
Qed.

(** * The properties above on the samples *)

Lemma hard_mute_refused_by_conference_witness :
  let s := mkState Sample.camera Sample.quiet in
  _setMuted Sample.detachFails true s
  = (Rejected (ErrorOf (Reason 1)), called (RemoveLocalTrackFromPc 0) s).
Proof.
  intros s.
  apply (hard_mute_refused_by_conference Sample.detachFails s 0 (Reason 1)).
  - repeat split; vm_compute; reflexivity.
  - reflexivity.
  - reflexivity.
Defined.

Lemma hard_mute_detaches_then_releases_witness :
  let s := mkState Sample.camera Sample.quiet in
  fst (_setMuted Sample.obliging true s) = Fulfilled tt
  /\ stream (this (snd (_setMuted Sample.obliging true s))) = None.
Proof.
  intros s.
  destruct (hard_mute_detaches_then_releases Sample.obliging s)
    as (Ho & Hst & _).
  - repeat split; vm_compute; reflexivity.
  - reflexivity.
  - split; [exact Ho | exact Hst].
Defined.

Lemma hard_unmute_capture_refused_witness :
  let s := mkState Sample.mutedCamera Sample.quiet in
  fst (_setMuted Scene.captureRefused false s) = Rejected (Reason 3).
Proof.
  intros s.
  rewrite (hard_unmute_capture_refused Scene.captureRefused s
             Scene.cameraRequest (Reason 3)).
  - reflexivity.
  - repeat split; vm_compute; reflexivity.
  - reflexivity.
  - reflexivity.
Defined.

Lemma hard_unmute_refused_by_conference_witness :
  let s := mkState Sample.mutedCamera Sample.quiet in
  fst (_setMuted Sample.reattachFails false s) = Rejected (ErrorOf (Reason 2))
  /\ emits (world (snd (_setMuted Sample.reattachFails false s))) = 0.
Proof.
  intros s.
  destruct (hard_unmute_refused_by_conference Sample.reattachFails s
              Scene.cameraRequest [Sample.cameraInfo] Sample.cameraInfo 0 (Reason 2))
    as (Ho & _ & _ & _ & He & _).
  - repeat split; vm_compute; reflexivity.
  - reflexivity.
  - reflexivity.
  - reflexivity.
  - reflexivity.
  - vm_compute; reflexivity.
  - split; [exact Ho | rewrite He; reflexivity].
Defined.

Lemma desktop_unmute_always_requests_capture_witness :
  let s := mkState Scene.screen Sample.quiet in
  exists later,
    trace (world (snd (_setMuted Sample.obliging false s)))
    = (later
       ++ [ObtainAudioAndVideoPermissions (desktopRequest Scene.screen)])%list.
Proof.
  intros s.
  apply (desktop_unmute_always_requests_capture Sample.obliging s);
    reflexivity.
Defined.

Lemma soft_transition_reaches_target_witness :
  let s := mkState Sample.microphone Sample.quiet in
  fst (_setMuted Sample.obliging true s) = Fulfilled tt
  /\ isMuted Sample.obliging (snd (_setMuted Sample.obliging true s)) = true.
Proof.
  intros s.
  apply (soft_transition_reaches_target Sample.obliging s true 0 0);
    reflexivity.
Defined.


Lemma setEffect_without_conference_switches_at_once_witness :
  let s := mkState Scene.loneMicrophone Sample.quiet in
  fst (setEffect Sample.obliging (Some 2) s) = Fulfilled tt
  /\ _streamEffect (this (snd (setEffect Sample.obliging (Some 2) s)))
     = Some 2.
Proof.
  intros s.
  destruct (setEffect_without_conference_switches_at_once Sample.obliging
              (Some 2) s) as (Ho & He & _).
  - split; [right; discriminate|]. repeat split; reflexivity.
  - reflexivity.
  - split; [exact Ho | exact He].
Defined.

Lemma setEffect_switches_off_the_peer_connection_witness :
  let s := mkState Sample.camera Sample.quiet in
  fst (setEffect Sample.obliging (Some 2) s) = Fulfilled tt
  /\ _setEffectInProgress (this (snd (setEffect Sample.obliging (Some 2) s)))
     = false.
Proof.
  intros s.
  destruct (setEffect_switches_off_the_peer_connection Sample.obliging
              (Some 2) s 0) as (Ho & _ & Hf & _).
  - split; [right; discriminate|]. repeat split; reflexivity.
  - reflexivity.
  - reflexivity.
  - reflexivity.
  - split; [exact Ho | exact Hf].
Defined.


Lemma applyConstraints_refusals_witness :
  let s := mkState Sample.camera Sample.quiet in
  applyConstraints Sample.obliging Sample.noAutoGain s
  = (Rejected (Error "Media video is not supported, track must be audio"), s).
Proof.
  intros s.
  destruct (applyConstraints_refusals Sample.obliging s Sample.noAutoGain)
    as (H & _).
  apply H. reflexivity.
Defined.

Lemma applyConstraints_first_request_granted_witness :
  let s := mkState Sample.microphone Sample.quiet in
  let result := applyConstraints Sample.obliging Sample.gainUndefined s in
  fst result = Fulfilled tt
  /\ preEffectStream (this (snd result)) = Some 5
  /\ releases (world (snd result)) = 1
  /\ obtains (trace (world (snd result)))
     = [ObtainAudioAndVideoPermissions
          (GumOptions.mk [MediaType.AUDIO] None (Some "mic-1") [] None
             (GumConstraints.mk None
                (Some (MediaTrackConstraints.mk
                         (present (Some "mic-1")) absent (present None)
                         (present (Some 1)) (present (Some true))
                         (present (Some true))))))].
Proof.
  intros s result.
  destruct (applyConstraints_first_request_granted Sample.obliging s
              Sample.gainUndefined 0 Sample.micSettings Sample.cameraInfo [])
    as (Hreq & Hr & Hp & _ & _ & Ho).
  - reflexivity.
  - left; reflexivity.
  - reflexivity.
  - reflexivity.
  - vm_compute; reflexivity.
  - vm_compute; reflexivity.
  - subst result. split; [rewrite Ho; reflexivity|].
    split; [exact Hp|]. split; [exact Hr|].
    rewrite Hreq. reflexivity.
Defined.

Lemma applyConstraints_both_requests_fail_witness :
  let s := mkState Sample.microphone Sample.quiet in
  let result := applyConstraints Scene.captureRefused Sample.otherDevice s in
  fst result = Rejected (Reason 3)
  /\ stream (this (snd result)) = Some 0
  /\ hd_error (trace (world (snd result)))
     = Some (ObtainAudioAndVideoPermissions
               (GumOptions.mk [MediaType.AUDIO] None (Some "mic-X") [] None
                  (GumConstraints.mk None
                     (Some (MediaTrackConstraints.ofSettings
                              Sample.micSettings))))).
Proof.
  intros s result.
  destruct (applyConstraints_both_requests_fail Scene.captureRefused s
              Sample.otherDevice 0 Sample.micSettings (Reason 3))
    as (Ho & Hlast & _ & _ & Hst & _).
  - reflexivity.
  - left; reflexivity.
  - reflexivity.
  - reflexivity.
  - vm_compute; reflexivity.
  - vm_compute; exact I.
  - vm_compute; reflexivity.
  - subst result. split; [exact Ho|]. split; [exact Hst|].
    rewrite Hlast. reflexivity.
Defined.

Lemma device_listed_resolves_to_requested_id_witness :
  let s := mkState Sample.microphone Sample.quiet in
  _realDeviceId (this (snd (_onDeviceListWillChange [Sample.micDevice] s)))
  = Some "mic-1".
Proof.
  intros s.
  destruct (device_listed_resolves_to_requested_id [Sample.micDevice] s 0
              Sample.micDevice) as (H & _).
  - reflexivity.
  - vm_compute; reflexivity.
  - exact H.
Defined.

Lemma default_device_change_is_followed_witness :
  let s := mkState Scene.defaultMicrophone Sample.quiet in
  _realDeviceId (this (snd (_onDeviceListWillChange [Scene.micA] s)))
  = Some "mic-2".
Proof.
  intros s.
  destruct (default_device_change_is_followed [Scene.micA] s 0 "Mic A"
              Scene.micA) as (H & _).
  - reflexivity.
  - reflexivity.
  - reflexivity.
  - vm_compute; reflexivity.
  - vm_compute; reflexivity.
  - exact H.
Defined.

Lemma resolved_id_names_a_listed_device_of_the_kind_witness :
  let s := mkState Sample.microphone Sample.quiet in
  exists d,
    In d [Sample.micDevice]
    /\ MediaDeviceInfo.deviceId d = "mic-1"
    /\ MediaDeviceInfo.kind d = deviceKind Sample.quiet 0.
Proof.
  intros s.
  apply (resolved_id_names_a_listed_device_of_the_kind [Sample.micDevice] s 0
           "mic-1").
  - reflexivity.
  - vm_compute; reflexivity.
Defined.


Lemma hard_muted_video_track_is_ended_by_flag_only_witness :
  let s := mkState Sample.camera Sample.quiet in
  fst (isEnded Sample.obliging (snd (_setMuted Sample.obliging true s)))
  = Fulfilled false.
Proof.
  intros s.
  rewrite (hard_muted_video_track_is_ended_by_flag_only Sample.obliging s).
  - reflexivity.
  - repeat split; vm_compute; reflexivity.
  - reflexivity.
  - reflexivity.
Defined.

Lemma switchCamera_flips_reported_facing_mode_witness :
  let s := mkState Sample.camera Sample.quiet in
  exists m,
    fst (getCameraFacingMode s) = Fulfilled (Some m)
    /\ fst (_switchCamera Scene.nativeSwitch s) = Fulfilled tt
    /\ fst (getCameraFacingMode (snd (_switchCamera Scene.nativeSwitch s)))
       = Fulfilled (Some (opposite m)).
Proof.
  intros s.
  apply (switchCamera_flips_reported_facing_mode Scene.nativeSwitch s 1
           (fun w => w)); try reflexivity; vm_compute; exact I.
Defined.

Lemma dispose_stops_where_effect_removal_fails_witness :
  let s := mkState Scene.blurredSwitchingCamera Sample.quiet in
  dispose Sample.obliging Scene.idle s
  = (Rejected (Error "setEffect already in progress!"), s).
Proof.
  intros s.
  destruct (dispose_stops_where_effect_removal_fails Sample.obliging
              Scene.idle s 2 (Error "setEffect already in progress!"))
    as (H & _).
  - reflexivity.
  - reflexivity.
  - reflexivity.
  - rewrite H. reflexivity.
Defined.

Lemma dispose_releases_the_capture_handle_below_the_effect_witness :
  let s := mkState Scene.enhancedMicrophone Sample.quiet in
  exists s2 shown,
    dispose Sample.obliging Scene.idle s = unsubscribe Scene.idle s2
    /\ stream (this s2) = Some 0
    /\ _streamEffect (this s2) = None
    /\ _originalStream (this s2) = None
    /\ _stopStreamInProgress (this s2) = false
    /\ disposed (this s2) = false
    /\ trace (world s2)
       = (StopMediaStream (Some 0) :: shown ++ [StopEffect 2])%list
    /\ filter (fun ev => negb (is_attach ev)) shown = [].
Proof.
  intros s.
  apply (dispose_releases_the_capture_handle_below_the_effect Sample.obliging
           Scene.idle s 2 0); try reflexivity.
  split; [left; discriminate|]. repeat split; reflexivity.
Defined.

Lemma ended_signal_alarms_only_without_data_witness :
  isVideoTrack Sample.camera = true
  /\ videoType Sample.camera = Some VideoType.CAMERA.
Proof.
  destruct (ended_signal_alarms_only_without_data Sample.obliging false
              Scene.noMutedProperty Sample.camera
              (on_track_ended Sample.obliging false Scene.noMutedProperty))
    as (Hv & Hc & _).
  - right; right; left; reflexivity.
  - split; [exact Hv | exact Hc].
Defined.

Lemma hard_muted_video_track_raises_no_alarm_witness :
  let s := mkState Sample.camera Sample.quiet in
  let s' := snd (_setMuted Sample.obliging true s) in
  on_track_ended Sample.obliging false Scene.noMutedProperty 0%Z s'
    (mkMonitor 0 [])
  = (Fulfilled tt, mkMonitor 0 []).
Proof.
  intros s s'.
  destruct (hard_muted_video_track_raises_no_alarm Sample.obliging false
              Scene.noMutedProperty s 0%Z (mkMonitor 0 []))
    as (_ & _ & H).
  - repeat split; vm_compute; reflexivity.
  - reflexivity.
  - reflexivity.
  - exact H.
Defined.
